(** * Nearest-tree resolution over two Pinia stores

    A shallow embedding of the location store ([locate_user]), the tree
    store ([fetch_trees], [closest_tree]) and the [Tree] / [Location]
    interfaces.  JavaScript numbers are IEEE 754 binary64 values, so
    coordinates and distances are Rocq's primitive floats, and the
    comparisons are the floating-point ones (every comparison with NaN is
    false).  Promise and geolocation callbacks are modelled as events of a
    single-threaded event loop.  [Math.sqrt] is taken to be the correctly
    rounded square root; only the two worked scenarios depend on its
    values. *)

From Stdlib Require Import Floats ZArith List String Bool Lia PeanoNat.
Import ListNotations.

(** ** JavaScript numbers *)

Module Number.

(** [x < a[i]] where the array read may be out of range: the read then
    yields [undefined], which converts to NaN, and the comparison is
    false. *)
Definition lt_undefined (x : float) (y : option float) : bool :=
  match y with
  | Some y => (x <? y)%float
  | None => false
  end.

(** A specification float that is not NaN and has sign [s]. *)
Definition signed (s : bool) (r : spec_float) : Prop :=
  match r with
  | S754_zero s' | S754_infinity s' | S754_finite s' _ _ => s' = s
  | S754_nan => False
  end.

(** A specification float that is neither NaN nor infinite. *)
Definition bounded_value (r : spec_float) : Prop :=
  match r with
  | S754_zero _ | S754_finite _ _ _ => True
  | S754_infinity _ | S754_nan => False
  end.

(** A specification float that is NaN or has a clear sign bit. *)
Definition nan_or_positive (r : spec_float) : Prop :=
  r = S754_nan \/ signed false r.

End Number.

(** ** types/location.ts and types/tree.ts *)

Record Location : Set := mkLocation {
  latitude : float;
  longitude : float
}.

Record Tree : Set := mkTree {
  id : string;
  name : string;
  description : string;
  location : Location;
  image_url : string;
  tree_url : string
}.

(** Both coordinates are finite numbers (neither NaN nor an infinity). *)
Definition finite_location (l : Location) : bool :=
  is_finite (latitude l) && is_finite (longitude l).

(** ** Array.prototype.reduce with an initial value

    The callback receives the accumulator, the current element and the
    current index; elements are visited left to right from index 0. *)

Fixpoint reduce_from {A B : Type} (callback : B -> A -> nat -> B)
    (l : list A) (currentIndex : nat) (previousValue : B) : B :=
  match l with
  | [] => previousValue
  | currentValue :: rest =>
      reduce_from callback rest (S currentIndex)
        (callback previousValue currentValue currentIndex)
  end.

Definition reduce {A B : Type} (callback : B -> A -> nat -> B)
    (l : list A) (initialValue : B) : B :=
  reduce_from callback l 0 initialValue.

(** ** stores/location.ts *)

Module LocationStore.

Record state : Set := mkState {
  locatable : bool;
  location : Location
}.

Definition init : state :=
  {| locatable := false;
     location := {| latitude := 51; longitude := 3 |} |}.

(** The causes a [GeolocationPositionError] distinguishes. *)
Inductive PositionError : Set :=
| PERMISSION_DENIED
| POSITION_UNAVAILABLE
| TIMEOUT.

(** The synchronous part of [locate_user].  [geolocation] tells whether
    [navigator.geolocation] is truthy; the second component tells
    whether [getCurrentPosition] was called. *)
Definition locate_user (geolocation : bool) (s : state) : state * bool :=
  if negb geolocation
  then ({| locatable := false; location := location s |}, false)
  else (s, true).

(** The success callback: the two coordinates are written one after the
    other into the stored object, then the flag is set. *)
Definition on_success (coords : Location) (s : state) : state :=
  let s1 := {| locatable := locatable s;
               location := {| latitude := latitude coords;
                              longitude := longitude (location s) |} |} in
  let s2 := {| locatable := locatable s1;
               location := {| latitude := latitude (location s1);
                              longitude := longitude coords |} |} in
  {| locatable := true; location := location s2 |}.

(** The error callback. *)
Definition on_error (error : PositionError) (s : state) : state :=
  {| locatable := false; location := location s |}.

(** What the one callback of an acquisition delivers. *)
Inductive outcome : Set :=
| Success (coords : Location)
| Failure (error : PositionError).

Definition settle (o : outcome) (s : state) : state :=
  match o with
  | Success coords => on_success coords s
  | Failure error => on_error error s
  end.

(** The store together with the number of acquisitions whose callback
    has not fired yet. *)
Record process : Set := mkProcess {
  store : state;
  acquiring : nat
}.

Definition start : process := {| store := init; acquiring := 0 |}.

Inductive event : Set :=
| Locate (geolocation : bool)
| Settle (o : outcome).

(** One turn of the event loop; a callback can only fire for an
    acquisition that was requested. *)
Definition step (e : event) (p : process) : option process :=
  match e with
  | Locate geolocation =>
      let (s, requested) := locate_user geolocation (store p) in
      Some {| store := s;
              acquiring := if requested then S (acquiring p) else acquiring p |}
  | Settle o =>
      match acquiring p with
      | 0 => None
      | S n => Some {| store := settle o (store p); acquiring := n |}
      end
  end.

Fixpoint run (events : list event) (p : process) : option process :=
  match events with
  | [] => Some p
  | e :: rest =>
      match step e p with
      | Some p' => run rest p'
      | None => None
      end
  end.

End LocationStore.

(** ** stores/tree.ts *)

Module TreeStore.

Record state : Set := mkState {
  trees : list Tree;
  loading : bool
}.

Definition init : state := {| trees := []; loading := false |}.

(** The synchronous part of [fetch_trees]: the flag is raised and the
    request [Trees.all()] is issued.  The function returns (a promise
    of) nothing to its caller. *)
Definition fetch_trees (s : state) : state :=
  {| trees := trees s; loading := true |}.

(** The [.then] callback, with [data] standing for [response.data.data]. *)
Definition on_then (data : list Tree) (s : state) : state :=
  {| trees := data; loading := loading s |}.

(** The [.finally] callback. *)
Definition on_finally (s : state) : state :=
  {| trees := trees s; loading := false |}.

(** How the promise of [Trees.all()] settles. *)
Inductive outcome : Set :=
| Fulfilled (data : list Tree)
| Rejected.

(** The first link of the promise chain: [.then] runs on fulfilment and
    is skipped on rejection. *)
Definition respond (o : outcome) (s : state) : state :=
  match o with
  | Fulfilled data => on_then data s
  | Rejected => s
  end.

(** The whole chain: [.finally] runs after the first link on both paths. *)
Definition settle (o : outcome) (s : state) : state :=
  on_finally (respond o s).

(** The callback of [trees.value.map] in [closest_tree]. *)
Definition distance (user : Location) (tree : Tree) : float :=
  let longDiff := (longitude (location tree) - longitude user)%float in
  let latDiff := (latitude (location tree) - latitude user)%float in
  PrimFloat.sqrt (longDiff * longDiff + latDiff * latDiff)%float.

(** The callback of [distances.reduce]: the accumulator is the index of
    the current smallest distance. *)
Definition smaller (distances : list float)
    (previousValue : nat) (currentValue : float) (currentIndex : nat) : nat :=
  if Number.lt_undefined currentValue (nth_error distances previousValue)
  then currentIndex
  else previousValue.

(** What the accumulator [c] of the scan satisfies once the indices
    below [i] are visited: no visited distance is strictly below the one
    at [c], and no distance left of [c] is below or equal to it. *)
Definition best (distances : list float) (c i : nat) : Prop :=
  exists dc, nth_error distances c = Some dc /\
    (forall j dj, j < i -> nth_error distances j = Some dj ->
                  (dj <? dc)%float = false) /\
    (forall j dj, j < c -> nth_error distances j = Some dj ->
                  (dj <=? dc)%float = false).

(** The getter, with the map callback as a parameter. *)
Definition closest_tree_by (metric : Location -> Tree -> float)
    (s : state) (locationStore : LocationStore.state) : option Tree :=
  if negb (LocationStore.locatable locationStore)
     || loading s
     || (List.length (trees s) =? 0)
  then None
  else
    let distances := map (metric (LocationStore.location locationStore)) (trees s) in
    let iMin := reduce (smaller distances) distances 0 in
    nth_error (trees s) iMin.

(** The getter [closest_tree]; [None] is JavaScript's [undefined]. *)
Definition closest_tree (s : state) (locationStore : LocationStore.state)
    : option Tree :=
  if negb (LocationStore.locatable locationStore)
     || loading s
     || (List.length (trees s) =? 0)
  then None
  else
    let distances :=
      map (distance (LocationStore.location locationStore)) (trees s) in
    let iMin := reduce (smaller distances) distances 0 in
    nth_error (trees s) iMin.

(** The store together with the requests whose promise has not settled
    and the chains whose [.finally] callback is still queued. *)
Record process : Set := mkProcess {
  store : state;
  fetching : nat;
  finishing : nat
}.

Definition start : process :=
  {| store := init; fetching := 0; finishing := 0 |}.

Inductive event : Set :=
| Fetch
| Respond (o : outcome)
| Finally.

(** One turn of the event loop.  Only a request in flight can settle, and
    [.finally] runs only behind a settled request; the two callbacks of a
    chain are separate turns, so the store can be read in between. *)
Definition step (e : event) (p : process) : option process :=
  match e with
  | Fetch =>
      Some {| store := fetch_trees (store p);
              fetching := S (fetching p);
              finishing := finishing p |}
  | Respond o =>
      match fetching p with
      | 0 => None
      | S n => Some {| store := respond o (store p);
                       fetching := n;
                       finishing := S (finishing p) |}
      end
  | Finally =>
      match finishing p with
      | 0 => None
      | S n => Some {| store := on_finally (store p);
                       fetching := fetching p;
                       finishing := n |}
      end
  end.

Fixpoint run (events : list event) (p : process) : option process :=
  match events with
  | [] => Some p
  | e :: rest =>
      match step e p with
      | Some p' => run rest p'
      | None => None
      end
  end.

(** The property of a process that a raised flag has a promise chain
    behind it that has not run to its end. *)
Definition flag_backed (p : process) : Prop :=
  loading (store p) = true -> 0 < fetching p + finishing p.

End TreeStore.

(** ** The two stores on one event loop (views/TreeListingView.vue) *)

Module App.

Record world : Set := mkWorld {
  treeStore : TreeStore.process;
  locationStore : LocationStore.process
}.

Definition start : world :=
  {| treeStore := TreeStore.start; locationStore := LocationStore.start |}.

Inductive event : Set :=
| TreeEvent (e : TreeStore.event)
| LocationEvent (e : LocationStore.event).

Definition step (e : event) (w : world) : option world :=
  match e with
  | TreeEvent e =>
      match TreeStore.step e (treeStore w) with
      | Some p => Some {| treeStore := p; locationStore := locationStore w |}
      | None => None
      end
  | LocationEvent e =>
      match LocationStore.step e (locationStore w) with
      | Some p => Some {| treeStore := treeStore w; locationStore := p |}
      | None => None
      end
  end.

Fixpoint run (events : list event) (w : world) : option world :=
  match events with
  | [] => Some w
  | e :: rest =>
      match step e w with
      | Some w' => run rest w'
      | None => None
      end
  end.

(** The events of one store, in the order they occur. *)
Fixpoint tree_events (events : list event) : list TreeStore.event :=
  match events with
  | [] => []
  | TreeEvent e :: rest => e :: tree_events rest
  | LocationEvent _ :: rest => tree_events rest
  end.

Fixpoint location_events (events : list event) : list LocationStore.event :=
  match events with
  | [] => []
  | TreeEvent _ :: rest => location_events rest
  | LocationEvent e :: rest => e :: location_events rest
  end.

(** The pair of store states the getter reads. *)
Definition stores (w : world) : TreeStore.state * LocationStore.state :=
  (TreeStore.store (treeStore w), LocationStore.store (locationStore w)).

Definition closest_tree (w : world) : option Tree :=
  TreeStore.closest_tree (fst (stores w)) (snd (stores w)).

(** The [onMounted] hook: both actions are started, the fetch first. *)
Definition onMounted (geolocation : bool) : list event :=
  [TreeEvent TreeStore.Fetch; LocationEvent (LocationStore.Locate geolocation)].

End App.

(** ** The template of views/TreeListingView.vue

    What the template shows for given store states: the block under the
    heading is the list, the apology or the loading notice, and the line
    below the rule is there when the getter has a value. *)

Module TreeListingView.

(** One [<li>]: its [:key] and the two interpolated texts. *)
Record li : Set := mkLi {
  key : string;
  name_shown : string;
  id_shown : string
}.

Inductive block : Set :=
| TreeList (items : list li)
| NoTrees
| LoadingNotice.

Record page : Set := mkPage {
  listing : block;
  closest_name : option string
}.

Definition item (tree : Tree) : li :=
  {| key := id tree; name_shown := name tree; id_shown := id tree |}.

Definition render (treeStore : TreeStore.state)
    (locationStore : LocationStore.state) : page :=
  {| listing :=
       if negb (TreeStore.loading treeStore)
       then if 0 <? List.length (TreeStore.trees treeStore)
            then TreeList (map item (TreeStore.trees treeStore))
            else NoTrees
       else LoadingNotice;
     closest_name :=
       match TreeStore.closest_tree treeStore locationStore with
       | Some tree => Some (name tree)
       | None => None
       end |}.

(** The page for a state of the event loop. *)
Definition show (w : App.world) : page :=
  render (fst (App.stores w)) (snd (App.stores w)).

End TreeListingView.

(** ** The getter as a Vue [computed] over [ref]s

    [closest_tree] is declared with [computed]: its value is cached, the
    reactive cells read while it is evaluated are recorded, and the cache
    is marked dirty when one of those cells is assigned a changed value;
    a dirty cache is evaluated again at the next read.  The cells are the
    refs of the two stores; [location] is an object ref whose two
    properties are assigned one by one.  The fetched trees themselves are
    never assigned to, so their properties are no cells here. *)

Module Reactivity.

Inductive cell : Set :=
| Locatable
| Latitude
| Longitude
| Loading
| Trees.

Definition cell_eqb (a b : cell) : bool :=
  match a, b with
  | Locatable, Locatable | Latitude, Latitude | Longitude, Longitude
  | Loading, Loading | Trees, Trees => true
  | _, _ => false
  end.

(** The refs of the two stores. *)
Record heap : Set := mkHeap {
  treeStore : TreeStore.state;
  locationStore : LocationStore.state
}.

(** A computation under dependency tracking: its value and the cells it
    read, in order. *)
Definition tracked (A : Type) : Type := heap -> A * list cell.

Definition ret {A : Type} (a : A) : tracked A := fun _ => (a, []).

Definition bind {A B : Type} (m : tracked A) (k : A -> tracked B)
    : tracked B :=
  fun h =>
    let (a, cells) := m h in
    let (b, cells') := k a h in
    (b, cells ++ cells').

Definition read_locatable : tracked bool :=
  fun h => (LocationStore.locatable (locationStore h), [Locatable]).

Definition read_latitude : tracked float :=
  fun h => (latitude (LocationStore.location (locationStore h)), [Latitude]).

Definition read_longitude : tracked float :=
  fun h => (longitude (LocationStore.location (locationStore h)), [Longitude]).

Definition read_loading : tracked bool :=
  fun h => (TreeStore.loading (treeStore h), [Loading]).

Definition read_trees : tracked (list Tree) :=
  fun h => (TreeStore.trees (treeStore h), [Trees]).

(** [Array.prototype.map] with a callback that reads cells. *)
Fixpoint map_tracked {A B : Type} (callback : A -> tracked B) (l : list A)
    : tracked (list B) :=
  match l with
  | [] => ret []
  | x :: rest =>
      bind (callback x) (fun y =>
      bind (map_tracked callback rest) (fun ys => ret (y :: ys)))
  end.

(** The callback of [trees.value.map], read by read. *)
Definition distance (tree : Tree) : tracked float :=
  bind read_longitude (fun longitude_user =>
  let longDiff := (longitude (location tree) - longitude_user)%float in
  bind read_latitude (fun latitude_user =>
  let latDiff := (latitude (location tree) - latitude_user)%float in
  ret (PrimFloat.sqrt (longDiff * longDiff + latDiff * latDiff)%float))).

(** The getter of [closest_tree], read by read: [||] stops at the first
    true operand; [trees.value] is read for [length], for [map] and for
    the final index. *)
Definition closest_tree : tracked (option Tree) :=
  bind read_locatable (fun locatable =>
  if negb locatable then ret None else
  bind read_loading (fun loading =>
  if loading then ret None else
  bind read_trees (fun trees =>
  if List.length trees =? 0 then ret None else
  bind read_trees (fun trees =>
  bind (map_tracked distance trees) (fun distances =>
  let iMin := reduce (TreeStore.smaller distances) distances 0 in
  bind read_trees (fun trees => ret (nth_error trees iMin))))))).

(** The cache of a [computed]. *)
Record computed : Set := mkComputed {
  dirty : bool;
  value : option Tree;
  deps : list cell
}.

(** A [computed] starts dirty, with nothing cached. *)
Definition fresh : computed :=
  {| dirty := true; value := None; deps := [] |}.

(** Reading [.value] of the computed: a dirty cache runs the getter and
    records what it read; a clean one answers from the cache. *)
Definition get (c : computed) (h : heap) : option Tree * computed :=
  if dirty c
  then let (v, cells) := closest_tree h in
       (v, {| dirty := false; value := v; deps := cells |})
  else (value c, c).

(** A cell was assigned a changed value. *)
Definition trigger (written : cell) (c : computed) : computed :=
  if existsb (cell_eqb written) (deps c)
  then {| dirty := true; value := value c; deps := deps c |}
  else c.

(** The refs together with the cache of the getter. *)
Record state : Set := mkState {
  refs : heap;
  closest : computed
}.

(** Assignments.  A ref triggers only when the new value differs from
    the old one ([Object.is]); an array that arrives in a response is a
    new object and always differs. *)
Definition set_loading (b : bool) (r : state) : state :=
  if Bool.eqb b (TreeStore.loading (treeStore (refs r))) then r
  else {| refs :=
            {| treeStore :=
                 {| TreeStore.trees := TreeStore.trees (treeStore (refs r));
                    TreeStore.loading := b |};
               locationStore := locationStore (refs r) |};
          closest := trigger Loading (closest r) |}.

Definition set_trees (data : list Tree) (r : state) : state :=
  {| refs :=
       {| treeStore :=
            {| TreeStore.trees := data;
               TreeStore.loading := TreeStore.loading (treeStore (refs r)) |};
          locationStore := locationStore (refs r) |};
     closest := trigger Trees (closest r) |}.

Definition set_locatable (b : bool) (r : state) : state :=
  if Bool.eqb b (LocationStore.locatable (locationStore (refs r))) then r
  else {| refs :=
            {| treeStore := treeStore (refs r);
               locationStore :=
                 {| LocationStore.locatable := b;
                    LocationStore.location :=
                      LocationStore.location (locationStore (refs r)) |} |};
          closest := trigger Locatable (closest r) |}.

Definition set_latitude (x : float) (r : state) : state :=
  if PrimFloat.Leibniz.eqb
       x (latitude (LocationStore.location (locationStore (refs r))))
  then r
  else {| refs :=
            {| treeStore := treeStore (refs r);
               locationStore :=
                 {| LocationStore.locatable :=
                      LocationStore.locatable (locationStore (refs r));
                    LocationStore.location :=
                      {| latitude := x;
                         longitude :=
                           longitude
                             (LocationStore.location
                                (locationStore (refs r))) |} |} |};
          closest := trigger Latitude (closest r) |}.

Definition set_longitude (x : float) (r : state) : state :=
  if PrimFloat.Leibniz.eqb
       x (longitude (LocationStore.location (locationStore (refs r))))
  then r
  else {| refs :=
            {| treeStore := treeStore (refs r);
               locationStore :=
                 {| LocationStore.locatable :=
                      LocationStore.locatable (locationStore (refs r));
                    LocationStore.location :=
                      {| latitude :=
                           latitude
                             (LocationStore.location
                                (locationStore (refs r)));
                         longitude := x |} |} |};
          closest := trigger Longitude (closest r) |}.

(** The actions and callbacks of the two stores, assignment by
    assignment. *)
Definition fetch_trees (r : state) : state := set_loading true r.

Definition on_then (data : list Tree) (r : state) : state := set_trees data r.

Definition on_finally (r : state) : state := set_loading false r.

Definition respond (o : TreeStore.outcome) (r : state) : state :=
  match o with
  | TreeStore.Fulfilled data => on_then data r
  | TreeStore.Rejected => r
  end.

Definition locate_user (geolocation : bool) (r : state) : state :=
  if negb geolocation then set_locatable false r else r.

Definition on_success (coords : Location) (r : state) : state :=
  set_locatable true
    (set_longitude (longitude coords)
       (set_latitude (latitude coords) r)).

Definition on_error (error : LocationStore.PositionError) (r : state)
    : state :=
  set_locatable false r.

Definition settle (o : LocationStore.outcome) (r : state) : state :=
  match o with
  | LocationStore.Success coords => on_success coords r
  | LocationStore.Failure error => on_error error r
  end.

(** The event loop over the reactive state: the turns of the two stores
    and the reads of the getter by the template. *)
Record world : Set := mkWorld {
  reactive : state;
  fetching : nat;
  finishing : nat;
  acquiring : nat
}.

Definition start : world :=
  {| reactive :=
       {| refs := {| treeStore := TreeStore.init;
                     locationStore := LocationStore.init |};
          closest := fresh |};
     fetching := 0; finishing := 0; acquiring := 0 |}.

Inductive event : Set :=
| Turn (e : App.event)
| Render.

Definition step (e : event) (w : world) : option world :=
  match e with
  | Turn (App.TreeEvent TreeStore.Fetch) =>
      Some {| reactive := fetch_trees (reactive w);
              fetching := S (fetching w);
              finishing := finishing w;
              acquiring := acquiring w |}
  | Turn (App.TreeEvent (TreeStore.Respond o)) =>
      match fetching w with
      | 0 => None
      | S n => Some {| reactive := respond o (reactive w);
                       fetching := n;
                       finishing := S (finishing w);
                       acquiring := acquiring w |}
      end
  | Turn (App.TreeEvent TreeStore.Finally) =>
      match finishing w with
      | 0 => None
      | S n => Some {| reactive := on_finally (reactive w);
                       fetching := fetching w;
                       finishing := n;
                       acquiring := acquiring w |}
      end
  | Turn (App.LocationEvent (LocationStore.Locate geolocation)) =>
      Some {| reactive := locate_user geolocation (reactive w);
              fetching := fetching w;
              finishing := finishing w;
              acquiring := if geolocation then S (acquiring w)
                           else acquiring w |}
  | Turn (App.LocationEvent (LocationStore.Settle o)) =>
      match acquiring w with
      | 0 => None
      | S n => Some {| reactive := settle o (reactive w);
                       fetching := fetching w;
                       finishing := finishing w;
                       acquiring := n |}
      end
  | Render =>
      Some {| reactive :=
                {| refs := refs (reactive w);
                   closest := snd (get (closest (reactive w))
                                       (refs (reactive w))) |};
              fetching := fetching w;
              finishing := finishing w;
              acquiring := acquiring w |}
  end.

Fixpoint run (events : list event) (w : world) : option world :=
  match events with
  | [] => Some w
  | e :: rest =>
      match step e w with
      | Some w' => run rest w'
      | None => None
      end
  end.

(** What the template gets when it reads the getter now. *)
Definition read (w : world) : option Tree :=
  fst (get (closest (reactive w)) (refs (reactive w))).

(** The turns of the stores in a run, without the reads. *)
Fixpoint turns (events : list event) : list App.event :=
  match events with
  | [] => []
  | Turn e :: rest => e :: turns rest
  | Render :: rest => turns rest
  end.

(** The stores of the event loop without the cache. *)
Definition project (w : world) : App.world :=
  {| App.treeStore :=
       {| TreeStore.store := treeStore (refs (reactive w));
          TreeStore.fetching := fetching w;
          TreeStore.finishing := finishing w |};
     App.locationStore :=
       {| LocationStore.store := locationStore (refs (reactive w));
          LocationStore.acquiring := acquiring w |} |}.

(** A clean cache holds what the getter gives now, value and cells. *)
Definition coherent (r : state) : Prop :=
  dirty (closest r) = false ->
  closest_tree (refs r) = (value (closest r), deps (closest r)).

End Reactivity.

(** ** Fixtures *)

Module Fixtures.

Definition tree (i : string) (lat lon : float) : Tree :=
  {| id := i; name := i; description := EmptyString;
     location := {| latitude := lat; longitude := lon |};
     image_url := EmptyString; tree_url := EmptyString |}.

Definition at_position (lat lon : float) : LocationStore.state :=
  {| LocationStore.locatable := true;
     LocationStore.location := {| latitude := lat; longitude := lon |} |}.

Definition loaded (l : list Tree) : TreeStore.state :=
  {| TreeStore.trees := l; TreeStore.loading := false |}.

(** The decimal 0.1 as a binary64 value. *)
Definition tenth : float := 0x1.999999999999ap-4%float.

Definition A00 : Tree := tree "A" 0 0.
Definition B11 : Tree := tree "B" 1 1.
Definition B00 : Tree := tree "B" 0 0.

End Fixtures.

(** * Facts *)

(** ** Order facts of binary64 comparison

    Proved on the specification floats and carried to the primitive ones
    by the comparison specifications. *)

Module NumberFacts.

Lemma SFcompare_refl_not_Lt (x : spec_float) : SFcompare x x <> Some Lt.
Proof.
  destruct x as [s|s| |s m e]; simpl; try destruct s; try discriminate.
  all: rewrite Z.compare_refl, ?Pos.compare_cont_refl; simpl; discriminate.
Qed.

Lemma SFleb_SFltb_trans (a b c : spec_float) :
  SFleb a b = true -> SFltb b c = true -> SFltb a c = true.
Proof.
  unfold SFleb, SFltb.
  destruct a as [sa|sa| |sa ma ea], b as [sb|sb| |sb mb eb],
           c as [sc|sc| |sc mc ec]; simpl;
    try destruct sa; try destruct sb; try destruct sc; simpl; try congruence.
  all: destruct (Z.compare_spec ea eb), (Z.compare_spec eb ec),
         (Z.compare_spec ea ec); try lia; simpl; try congruence.
  all: subst.
  all: change (Pos.compare_cont Eq ?x ?y) with (Pos.compare x y).
  all: destruct (Pos.compare_spec ma mb), (Pos.compare_spec mb mc),
         (Pos.compare_spec ma mc); simpl; try congruence; try lia.
Qed.

Lemma SFcompare_antisym (a b : spec_float) :
  SFcompare a a <> None -> SFcompare b b <> None ->
  SFltb b a = false -> SFleb a b = true.
Proof.
  unfold SFleb, SFltb.
  destruct a as [sa|sa| |sa ma ea], b as [sb|sb| |sb mb eb]; simpl;
    try destruct sa; try destruct sb; simpl; try congruence.
  all: intros _ _.
  all: destruct (Z.compare_spec ea eb), (Z.compare_spec eb ea);
         try lia; simpl; try congruence.
  all: subst.
  all: change (Pos.compare_cont Eq ?x ?y) with (Pos.compare x y).
  all: destruct (Pos.compare_spec ma mb), (Pos.compare_spec mb ma);
         simpl; try congruence; try lia.
Qed.

Lemma ltb_irrefl (x : float) : (x <? x)%float = false.
Proof.
  rewrite FloatAxioms.ltb_spec. unfold SFltb.
  pose proof (SFcompare_refl_not_Lt (Prim2SF x)) as H.
  destruct (SFcompare (Prim2SF x) (Prim2SF x)) as [[ | | ]|]; congruence.
Qed.

Lemma ltb_leb (x y : float) : (x <? y)%float = true -> (x <=? y)%float = true.
Proof.
  rewrite FloatAxioms.ltb_spec, FloatAxioms.leb_spec. unfold SFltb, SFleb.
  destruct (SFcompare (Prim2SF x) (Prim2SF y)) as [[ | | ]|]; congruence.
Qed.

Lemma eqb_leb (x y : float) : (x =? y)%float = true -> (x <=? y)%float = true.
Proof.
  rewrite FloatAxioms.eqb_spec, FloatAxioms.leb_spec. unfold SFeqb, SFleb.
  destruct (SFcompare (Prim2SF x) (Prim2SF y)) as [[ | | ]|]; congruence.
Qed.

Lemma eqb_not_ltb (x y : float) : (x =? y)%float = true -> (x <? y)%float = false.
Proof.
  rewrite FloatAxioms.eqb_spec, FloatAxioms.ltb_spec. unfold SFeqb, SFltb.
  destruct (SFcompare (Prim2SF x) (Prim2SF y)) as [[ | | ]|]; congruence.
Qed.

Lemma leb_ltb_trans (x y z : float) :
  (x <=? y)%float = true -> (y <? z)%float = true -> (x <? z)%float = true.
Proof. rewrite FloatAxioms.leb_spec, !FloatAxioms.ltb_spec. apply SFleb_SFltb_trans. Qed.

Lemma ltb_trans (x y z : float) :
  (x <? y)%float = true -> (y <? z)%float = true -> (x <? z)%float = true.
Proof. intros H. apply leb_ltb_trans, ltb_leb, H. Qed.

Lemma not_nan_compare (x : float) :
  is_nan x = false -> SFcompare (Prim2SF x) (Prim2SF x) <> None.
Proof.
  unfold is_nan. rewrite FloatAxioms.eqb_spec. unfold SFeqb.
  destruct (SFcompare (Prim2SF x) (Prim2SF x)) as [[ | | ]|];
    simpl; congruence.
Qed.

(** Away from NaN the order is total. *)
Lemma not_ltb_leb (x y : float) :
  is_nan x = false -> is_nan y = false ->
  (y <? x)%float = false -> (x <=? y)%float = true.
Proof.
  intros Hx Hy. rewrite FloatAxioms.ltb_spec, FloatAxioms.leb_spec.
  apply SFcompare_antisym; apply not_nan_compare; assumption.
Qed.

(** *** No NaN from finite operands *)

Lemma shr_1_nonneg mrs : (0 <= shr_m mrs)%Z -> (0 <= shr_m (shr_1 mrs))%Z.
Proof.
  destruct mrs as [m r s]. simpl.
  destruct m as [|[p|p|]|[p|p|]]; simpl; lia.
Qed.

Lemma iter_shr_1_nonneg p :
  forall mrs, (0 <= shr_m mrs)%Z -> (0 <= shr_m (SpecFloat.iter_pos shr_1 p mrs))%Z.
Proof.
  induction p as [p IH|p IH|]; intros mrs H; simpl.
  - apply IH, IH, shr_1_nonneg, H.
  - apply IH, IH, H.
  - apply shr_1_nonneg, H.
Qed.

Lemma shr_fexp_nonneg m e l :
  (0 <= m)%Z -> (0 <= shr_m (fst (shr_fexp prec emax m e l)))%Z.
Proof.
  intros H. unfold shr_fexp, shr.
  assert (H0 : (0 <= shr_m (shr_record_of_loc m l))%Z).
  { destruct l as [|[ | | ]]; simpl; exact H. }
  destruct (fexp prec emax (Zdigits2 m + e) - e)%Z; simpl; try exact H0.
  apply iter_shr_1_nonneg, H0.
Qed.

Lemma round_nearest_even_nonneg m l :
  (0 <= m)%Z -> (0 <= round_nearest_even m l)%Z.
Proof.
  intros H. destruct l as [|[ | | ]]; simpl; try lia.
  destruct (Z.even m); lia.
Qed.

Lemma binary_round_aux_signed sx mx ex lx :
  (0 <= mx)%Z -> Number.signed sx (binary_round_aux prec emax sx mx ex lx).
Proof.
  intros H. unfold binary_round_aux.
  pose proof (shr_fexp_nonneg mx ex lx H) as H1.
  destruct (shr_fexp prec emax mx ex lx) as [mrs' e']. simpl in H1.
  pose proof (shr_fexp_nonneg _ e' loc_Exact
                (round_nearest_even_nonneg _ (loc_of_shr_record mrs') H1)) as H2.
  destruct (shr_fexp prec emax _ e' loc_Exact) as [mrs'' e'']. simpl in H2.
  destruct (shr_m mrs'') as [|m|m]; [reflexivity| |lia].
  match goal with |- context [if ?c then _ else _] => destruct c end;
    reflexivity.
Qed.

Lemma binary_round_signed sx mx ex : Number.signed sx (binary_round prec emax sx mx ex).
Proof.
  unfold binary_round.
  destruct (shl_align mx ex _) as [mz ez].
  apply binary_round_aux_signed. lia.
Qed.

Lemma signed_not_nan s r : Number.signed s r -> r <> S754_nan.
Proof. destruct r; simpl; congruence. Qed.

Lemma SFsub_bounded x y :
  Number.bounded_value x -> Number.bounded_value y -> SF64sub x y <> S754_nan.
Proof.
  unfold SF64sub, SFsub.
  destruct x as [sx|sx| |sx mx ex], y as [sy|sy| |sy my ey]; simpl;
    try contradiction; intros _ _; try destruct sx; try destruct sy;
    try discriminate.
  all: match goal with
       | |- binary_normalize _ _ ?m _ _ <> _ =>
           destruct m; simpl; try discriminate;
           eapply signed_not_nan, binary_round_signed
       end.
Qed.

Lemma SFmul_square x : x <> S754_nan -> Number.signed false (SF64mul x x).
Proof.
  unfold SF64mul, SFmul.
  destruct x as [s|s| |s m e]; simpl; try congruence; intros _;
    try (destruct s; reflexivity).
  replace (xorb s s) with false by (destruct s; reflexivity).
  apply binary_round_aux_signed. lia.
Qed.

Lemma SFadd_signed x y :
  Number.signed false x -> Number.signed false y -> Number.signed false (SF64add x y).
Proof.
  unfold SF64add, SFadd.
  destruct x as [sx|sx| |sx mx ex], y as [sy|sy| |sy my ey]; simpl;
    try contradiction; intros -> ->; simpl; try reflexivity.
  apply binary_round_signed.
Qed.

Lemma SFsqrt_signed x : Number.signed false x -> SF64sqrt x <> S754_nan.
Proof.
  unfold SF64sqrt, SFsqrt.
  destruct x as [s|s| |s m e]; simpl; try contradiction; intros ->;
    try discriminate.
  unfold SFsqrt_core_binary.
  set (m' := match (e - 2 * _)%Z with Z0 => _ | Z.pos _ => _ | Z.neg _ => _ end).
  assert (Hm : (0 <= m')%Z).
  { unfold m'. destruct (e - 2 * _)%Z; try lia.
    apply Z.shiftl_nonneg. lia. }
  pose proof (Z.sqrtrem_spec m' Hm) as Hs.
  destruct (Z.sqrtrem m') as [q r].
  eapply signed_not_nan, binary_round_aux_signed. lia.
Qed.

Lemma Prim2SF_is_nan x : Prim2SF x = S754_nan <-> is_nan x = true.
Proof.
  unfold Prim2SF. destruct (is_nan x) eqn:Hn; split; try reflexivity;
    try discriminate.
  destruct (is_zero x); [discriminate|].
  destruct (is_infinity x); [discriminate|].
  destruct (Z.frexp x) as [r e].
  destruct (shr_fexp _ _ _ _ _) as [mrs e'].
  destruct (shr_m mrs); discriminate.
Qed.

Lemma Prim2SF_bounded x : is_finite x = true -> Number.bounded_value (Prim2SF x).
Proof.
  unfold is_finite, Prim2SF. intros H.
  apply negb_true_iff, orb_false_iff in H. destruct H as [-> ->].
  destruct (is_zero x); [exact I|].
  destruct (Z.frexp x) as [r e].
  destruct (shr_fexp _ _ _ _ _) as [mrs e'].
  destruct (shr_m mrs); exact I.
Qed.

Lemma sqrt_sum_squares_not_nan (a b c d : float) :
  is_finite a = true -> is_finite b = true ->
  is_finite c = true -> is_finite d = true ->
  is_nan (sqrt ((a - b) * (a - b) + (c - d) * (c - d)))%float = false.
Proof.
  intros Ha Hb Hc Hd.
  destruct (is_nan _) eqn:E; [|reflexivity].
  apply Prim2SF_is_nan in E.
  rewrite sqrt_spec, add_spec, !mul_spec, !sub_spec in E.
  exfalso. revert E. apply SFsqrt_signed.
  apply SFadd_signed; apply SFmul_square; apply SFsub_bounded;
    apply Prim2SF_bounded; assumption.
Qed.

End NumberFacts.

(** ** The left-to-right minimum scan *)

Section Scan.

Import TreeStore.

Variable distances : list float.

Lemma skipn_cons {A : Type} (l : list A) :
  forall i x rest, skipn i l = x :: rest ->
                   nth_error l i = Some x /\ skipn (S i) l = rest.
Proof.
  induction l as [|y l IH]; intros [|i] x rest H; simpl in *;
    try discriminate.
  - injection H as -> ->. split; reflexivity.
  - apply IH in H. exact H.
Qed.

(** A scan passes through the accumulator of each of its prefixes. *)
Lemma reduce_from_app {A B : Type} (callback : B -> A -> nat -> B)
    (l1 l2 : list A) :
  forall i acc,
    reduce_from callback (l1 ++ l2) i acc
    = reduce_from callback l2 (i + List.length l1)
                  (reduce_from callback l1 i acc).
Proof.
  induction l1 as [|x l1 IH]; intros i acc; simpl.
  - rewrite Nat.add_0_r. reflexivity.
  - rewrite IH, Nat.add_succ_comm. reflexivity.
Qed.

Lemma reduce_prefix {A B : Type} (callback : B -> A -> nat -> B)
    (l : list A) (initialValue : B) (k : nat) :
  reduce callback l initialValue
  = reduce_from callback (skipn k l) (List.length (firstn k l))
                (reduce callback (firstn k l) initialValue).
Proof.
  unfold reduce. rewrite <- (firstn_skipn k l) at 1.
  exact (reduce_from_app callback (firstn k l) (skipn k l) 0 initialValue).
Qed.

Lemma best_start (d : float) (rest : list float) :
  distances = d :: rest -> best distances 0 0.
Proof.
  intros ->. exists d. repeat split; intros j dj Hj; lia.
Qed.

Lemma best_in_range (c i : nat) :
  best distances c i -> c < List.length distances.
Proof.
  intros (dc & Hc & _). apply nth_error_Some. congruence.
Qed.

(** One call of the reduce callback keeps the invariant. *)
Lemma best_step (c i : nat) (x : float) :
  best distances c i -> nth_error distances i = Some x ->
  best distances (smaller distances c x i) (S i).
Proof.
  intros (dc & Hc & Hlt & Hle) Hi.
  unfold smaller. rewrite Hc. simpl.
  destruct (x <? dc)%float eqn:E.
  - assert (Hnew : forall j dj, j < i -> nth_error distances j = Some dj ->
                                (dj <=? x)%float = false).
    { intros j dj Hj Hdj. destruct (dj <=? x)%float eqn:E'; [|reflexivity].
      rewrite <- (Hlt j dj Hj Hdj). symmetry.
      exact (NumberFacts.leb_ltb_trans _ _ _ E' E). }
    exists x. split; [exact Hi|]. split; [|exact Hnew].
    intros j dj Hj Hdj.
    destruct (Nat.eq_dec j i) as [->|Hne].
    + replace dj with x by congruence. apply NumberFacts.ltb_irrefl.
    + destruct (dj <? x)%float eqn:E'; [|reflexivity].
      rewrite <- (Hnew j dj ltac:(lia) Hdj). symmetry.
      exact (NumberFacts.ltb_leb _ _ E').
  - exists dc. split; [exact Hc|]. split; [|exact Hle].
    intros j dj Hj Hdj.
    destruct (Nat.eq_dec j i) as [->|Hne].
    + replace dj with x by congruence. exact E.
    + apply (Hlt j dj); [lia|exact Hdj].
Qed.

(** The scan over any stretch of the array, started at its index. *)
Lemma reduce_from_best (stretch : list float) :
  forall tail i c,
    skipn i distances = stretch ++ tail ->
    best distances c i ->
    best distances (reduce_from (smaller distances) stretch i c)
         (i + List.length stretch).
Proof.
  induction stretch as [|x rest IH]; intros tail i c Hskip Hbest; simpl.
  - rewrite Nat.add_0_r. exact Hbest.
  - simpl in Hskip. apply skipn_cons in Hskip. destruct Hskip as [Hi Hskip].
    rewrite <- Nat.add_succ_comm.
    apply (IH tail); [exact Hskip|].
    apply best_step; assumption.
Qed.

(** The accumulator handed to the callback at index [k], for every [k]. *)
Lemma reduce_prefix_best (k : nat) :
  distances <> [] ->
  best distances (reduce (smaller distances) (firstn k distances) 0)
       (List.length (firstn k distances)).
Proof.
  intros Hne. unfold reduce.
  destruct distances as [|d rest] eqn:Hd; [congruence|]. rewrite <- Hd.
  apply (reduce_from_best (firstn k distances) (skipn k distances) 0 0).
  - simpl. symmetry. apply firstn_skipn.
  - apply (best_start d rest Hd).
Qed.

Lemma reduce_best :
  distances <> [] ->
  best distances (reduce (smaller distances) distances 0)
       (List.length distances).
Proof.
  intros Hne.
  pose proof (reduce_prefix_best (List.length distances) Hne) as H.
  rewrite firstn_all in H. exact H.
Qed.

End Scan.

(** ** The getter [closest_tree] *)

Section ClosestTree.

Import TreeStore.

Lemma closest_tree_by_distance (s : state) (ls : LocationStore.state) :
  closest_tree s ls = closest_tree_by distance s ls.
Proof. reflexivity. Qed.

Lemma guards_pass (s : state) (ls : LocationStore.state) :
  trees s <> [] -> loading s = false -> LocationStore.locatable ls = true ->
  negb (LocationStore.locatable ls) || loading s
    || (List.length (trees s) =? 0) = false.
Proof.
  intros Hne -> ->. simpl.
  destruct (trees s); [congruence|reflexivity].
Qed.

(** When the guards pass, the scan's index selects a tree; its distance
    is the one the invariant [best] speaks about. *)
Lemma closest_tree_found (s : state) (ls : LocationStore.state) :
  trees s <> [] -> loading s = false -> LocationStore.locatable ls = true ->
  let user := LocationStore.location ls in
  let distances := map (distance user) (trees s) in
  let iMin := reduce (smaller distances) distances 0 in
  exists t,
    closest_tree s ls = Some t /\
    nth_error (trees s) iMin = Some t /\
    (forall j t', nth_error (trees s) j = Some t' ->
                  (distance user t' <? distance user t)%float = false) /\
    (forall j t', j < iMin -> nth_error (trees s) j = Some t' ->
                  (distance user t' <=? distance user t)%float = false).
Proof.
  intros Hne Hload Hloc user distances iMin.
  assert (Hd : distances <> []).
  { unfold distances. destruct (trees s); [congruence|discriminate]. }
  destruct (reduce_best distances Hd) as (dc & Hc & Hlt & Hle).
  fold iMin in Hc, Hle.
  unfold distances in Hc. rewrite nth_error_map in Hc.
  destruct (nth_error (trees s) iMin) as [t|] eqn:Ht; [|discriminate].
  simpl in Hc. injection Hc as Hc. subst dc.
  exists t. split; [|split; [reflexivity|split]].
  - unfold closest_tree. rewrite (guards_pass s ls Hne Hload Hloc).
    exact Ht.
  - intros j t' Hj. apply (Hlt j).
    + unfold distances. rewrite length_map. apply nth_error_Some. congruence.
    + unfold distances. rewrite nth_error_map, Hj. reflexivity.
  - intros j t' Hlt' Hj. apply (Hle j); [exact Hlt'|].
    unfold distances. rewrite nth_error_map, Hj. reflexivity.
Qed.

(** Finite coordinates never give a NaN distance. *)
Lemma distance_not_nan (user : Location) (tree : Tree) :
  finite_location user = true -> finite_location (location tree) = true ->
  is_nan (distance user tree) = false.
Proof.
  unfold finite_location. intros Hu Ht.
  apply andb_true_iff in Hu. apply andb_true_iff in Ht.
  destruct Hu as [Hulat Hulon]. destruct Ht as [Htlat Htlon].
  unfold distance. cbv zeta.
  apply NumberFacts.sqrt_sum_squares_not_nan; assumption.
Qed.

End ClosestTree.

Section ClosestTreeClaims.

Import TreeStore Fixtures.

(** C1. With a non-empty collection that is not loading and a locatable
    user, [closest_tree] returns a tree of the collection that minimizes
    the planar metric sqrt(longDiff^2 + latDiff^2), computed in binary64:
    no tree of the collection has a strictly smaller distance, and, when
    no distance is NaN, the returned distance is below or equal to every
    tree's distance.  For A at (0,0), B at (1,1) and the user at
    (0.1,0.1) the result is A. *)
Theorem closest_tree_minimizes_distance :
  (forall user tree,
      distance user tree =
      PrimFloat.sqrt
        ((longitude (location tree) - longitude user)
         * (longitude (location tree) - longitude user)
         + (latitude (location tree) - latitude user)
           * (latitude (location tree) - latitude user))%float) /\
  (forall (s : state) (ls : LocationStore.state),
      trees s <> [] -> loading s = false ->
      LocationStore.locatable ls = true ->
      let user := LocationStore.location ls in
      exists t,
        closest_tree s ls = Some t /\
        In t (trees s) /\
        (forall t', In t' (trees s) ->
                    (distance user t' <? distance user t)%float = false) /\
        ((forall t', In t' (trees s) -> is_nan (distance user t') = false) ->
         forall t', In t' (trees s) ->
                    (distance user t <=? distance user t')%float = true) /\
        (finite_location user = true ->
         (forall t', In t' (trees s) ->
                     finite_location (location t') = true) ->
         forall t', In t' (trees s) ->
                    (distance user t <=? distance user t')%float = true)) /\
  (forall user tree,
      finite_location user = true ->
      finite_location (location tree) = true ->
      is_nan (distance user tree) = false) /\
  closest_tree (loaded [A00; B11]) (at_position tenth tenth) = Some A00.
Proof.
  split; [reflexivity|].
  split; [|split; [exact distance_not_nan|reflexivity]].
  intros s ls Hne Hload Hloc user.
  destruct (closest_tree_found s ls Hne Hload Hloc) as (t & Hres & Ht & Hlt & _).
  fold user in Hlt.
  assert (Hin : In t (trees s)) by (eapply nth_error_In; exact Ht).
  assert (Hmin : forall t', In t' (trees s) ->
                   (distance user t' <? distance user t)%float = false).
  { intros t' Hin'. apply In_nth_error in Hin'. destruct Hin' as [j Hj].
    exact (Hlt j t' Hj). }
  assert (Htotal : (forall t', In t' (trees s) ->
                               is_nan (distance user t') = false) ->
                   forall t', In t' (trees s) ->
                     (distance user t <=? distance user t')%float = true).
  { intros Hnan t' Hin'. apply NumberFacts.not_ltb_leb; auto. }
  exists t. repeat split; try assumption.
  intros Hu Hfin. apply Htotal.
  intros t' Hin'. apply distance_not_nan; auto.
Qed.

Lemma closest_tree_minimizes_distance_witness :
  let s := loaded [A00; B11] in
  let ls := at_position tenth tenth in
  let user := LocationStore.location ls in
  (trees s <> [] /\ loading s = false /\ LocationStore.locatable ls = true) /\
  exists t,
    closest_tree s ls = Some t /\
    In t (trees s) /\
    (forall t', In t' (trees s) ->
                (distance user t' <? distance user t)%float = false) /\
    ((forall t', In t' (trees s) -> is_nan (distance user t') = false) ->
     forall t', In t' (trees s) ->
                (distance user t <=? distance user t')%float = true) /\
    (finite_location user = true ->
     (forall t', In t' (trees s) -> finite_location (location t') = true) ->
     forall t', In t' (trees s) ->
                (distance user t <=? distance user t')%float = true).
Proof.
  split.
  - repeat split; try reflexivity; discriminate.
  - apply (proj1 (proj2 closest_tree_minimizes_distance));
      [discriminate|reflexivity|reflexivity].
Defined.

(** C2. Among trees whose distances are numerically equal to the minimal
    one, [closest_tree] returns the first in array order: the returned
    tree has no strictly closer tree, every tree left of it is neither
    closer nor equally close, so every equally close tree sits at the
    same or a later index.  The reduce callback keeps the current index
    unless the visited distance is strictly smaller, in particular on an
    equal one.  For A and B both at (0,0) and the user at (0,0) the
    result is A. *)
Theorem closest_tree_keeps_first_of_ties :
  (forall (s : state) (ls : LocationStore.state),
      trees s <> [] -> loading s = false ->
      LocationStore.locatable ls = true ->
      let user := LocationStore.location ls in
      exists i t,
        closest_tree s ls = Some t /\
        nth_error (trees s) i = Some t /\
        (forall j t', nth_error (trees s) j = Some t' ->
                      (distance user t' <? distance user t)%float = false) /\
        (forall j t', j < i -> nth_error (trees s) j = Some t' ->
                      (distance user t' <=? distance user t)%float = false) /\
        (forall j t', nth_error (trees s) j = Some t' ->
                      (distance user t' =? distance user t)%float = true ->
                      i <= j) /\
        (finite_location user = true ->
         (forall t', In t' (trees s) ->
                     finite_location (location t') = true) ->
         forall t', In t' (trees s) ->
                    (distance user t <=? distance user t')%float = true)) /\
  (forall distances previousValue currentValue currentIndex d,
      nth_error distances previousValue = Some d ->
      (currentValue <? d)%float = false ->
      smaller distances previousValue currentValue currentIndex
      = previousValue) /\
  (forall distances previousValue currentValue currentIndex d,
      nth_error distances previousValue = Some d ->
      (currentValue =? d)%float = true ->
      smaller distances previousValue currentValue currentIndex
      = previousValue) /\
  (forall distances previousValue currentValue currentIndex d,
      nth_error distances previousValue = Some d ->
      (currentValue <? d)%float = true ->
      smaller distances previousValue currentValue currentIndex
      = currentIndex) /\
  closest_tree (loaded [A00; B00]) (at_position 0 0) = Some A00.
Proof.
  split; [|split; [|split; [|split; [|reflexivity]]]].
  - intros s ls Hne Hload Hloc user.
    destruct (closest_tree_found s ls Hne Hload Hloc)
      as (t & Hres & Ht & Hlt & Hle).
    fold user in Hlt, Hle.
    eexists. exists t. repeat split; try eassumption.
    + intros j t' Hj Heq.
      apply Nat.nlt_ge. intros Hji.
      apply NumberFacts.eqb_leb in Heq.
      rewrite (Hle j t' Hji Hj) in Heq. discriminate.
    + intros Hu Hfin t' Hin'.
      assert (Hin : In t (trees s)) by (eapply nth_error_In; exact Ht).
      apply NumberFacts.not_ltb_leb; try (apply distance_not_nan; auto).
      apply In_nth_error in Hin'. destruct Hin' as [j Hj].
      exact (Hlt j t' Hj).
  - intros ds p c i d Hd Hlt. unfold smaller. rewrite Hd. simpl.
    rewrite Hlt. reflexivity.
  - intros ds p c i d Hd Heq. unfold smaller. rewrite Hd. simpl.
    rewrite (NumberFacts.eqb_not_ltb _ _ Heq). reflexivity.
  - intros ds p c i d Hd Hlt. unfold smaller. rewrite Hd. simpl.
    rewrite Hlt. reflexivity.
Qed.

Lemma closest_tree_keeps_first_of_ties_witness :
  let s := loaded [B11; A00; B00] in
  let ls := at_position 0 0 in
  let user := LocationStore.location ls in
  (trees s <> [] /\ loading s = false /\ LocationStore.locatable ls = true) /\
  exists i t,
    closest_tree s ls = Some t /\
    nth_error (trees s) i = Some t /\
    (forall j t', nth_error (trees s) j = Some t' ->
                  (distance user t' <? distance user t)%float = false) /\
    (forall j t', j < i -> nth_error (trees s) j = Some t' ->
                  (distance user t' <=? distance user t)%float = false) /\
    (forall j t', nth_error (trees s) j = Some t' ->
                  (distance user t' =? distance user t)%float = true ->
                  i <= j) /\
    (finite_location user = true ->
     (forall t', In t' (trees s) -> finite_location (location t') = true) ->
     forall t', In t' (trees s) ->
                (distance user t <=? distance user t')%float = true).
Proof.
  split.
  - repeat split; try reflexivity; discriminate.
  - apply (proj1 closest_tree_keeps_first_of_ties);
      [discriminate|reflexivity|reflexivity].
Defined.

(** C3. [closest_tree] is [undefined] as soon as the user is not
    locatable, or the trees are loading, or there is no tree; the test
    comes before the distances are computed, so the answer is the same
    whatever the distance callback is. *)
Theorem closest_tree_guards (s : state) (ls : LocationStore.state) :
  LocationStore.locatable ls = false \/ loading s = true \/ trees s = [] ->
  closest_tree s ls = None /\
  forall metric, closest_tree_by metric s ls = None.
Proof.
  intros H.
  assert (G : negb (LocationStore.locatable ls) || loading s
              || (List.length (trees s) =? 0) = true).
  { destruct H as [-> | [-> | ->]]; simpl;
      rewrite ?orb_true_r; reflexivity. }
  split; [|intros metric]; unfold closest_tree, closest_tree_by;
    rewrite G; reflexivity.
Qed.

Lemma closest_tree_guards_witness :
  let s := {| trees := [A00; B11]; loading := true |} in
  let ls := at_position tenth tenth in
  (LocationStore.locatable ls = false \/ loading s = true \/ trees s = []) /\
  closest_tree s ls = None /\
  forall metric, closest_tree_by metric s ls = None.
Proof.
  split.
  - right. left. reflexivity.
  - apply closest_tree_guards. right. left. reflexivity.
Defined.

(** C10. When the guards pass, the index the scan selects is an index of
    [trees], as is the accumulator the scan holds after any [k] elements,
    which is what the next call of the reduce callback receives (so
    [distances[previousValue]] is never read out of range), and the getter
    returns the tree at that index, an element of the collection. *)
Theorem closest_tree_index_in_bounds (s : state) (ls : LocationStore.state) :
  trees s <> [] -> loading s = false ->
  LocationStore.locatable ls = true ->
  let distances := map (distance (LocationStore.location ls)) (trees s) in
  let iMin := reduce (smaller distances) distances 0 in
  iMin < List.length (trees s) /\
  (forall k,
      reduce (smaller distances) (firstn k distances) 0
      < List.length distances /\
      iMin = reduce_from (smaller distances) (skipn k distances)
                         (List.length (firstn k distances))
                         (reduce (smaller distances) (firstn k distances) 0)) /\
  exists t, closest_tree s ls = Some t /\
            nth_error (trees s) iMin = Some t /\
            In t (trees s).
Proof.
  intros Hne Hload Hloc distances iMin.
  destruct (closest_tree_found s ls Hne Hload Hloc) as (t & Hres & Ht & _).
  fold distances in Ht. fold iMin in Ht.
  split; [apply nth_error_Some; congruence|]. split.
  - intros k. split; [|apply reduce_prefix].
    eapply best_in_range. apply reduce_prefix_best.
    unfold distances. destruct (trees s); [congruence|discriminate].
  - exists t. repeat split; try assumption.
    eapply nth_error_In; exact Ht.
Qed.

Lemma closest_tree_index_in_bounds_witness :
  let s := loaded [B11; A00; B00] in
  let ls := at_position tenth tenth in
  let distances := map (distance (LocationStore.location ls)) (trees s) in
  let iMin := reduce (smaller distances) distances 0 in
  (trees s <> [] /\ loading s = false /\ LocationStore.locatable ls = true) /\
  iMin < List.length (trees s) /\
  (forall k,
      reduce (smaller distances) (firstn k distances) 0
      < List.length distances /\
      iMin = reduce_from (smaller distances) (skipn k distances)
                         (List.length (firstn k distances))
                         (reduce (smaller distances) (firstn k distances) 0)) /\
  exists t, closest_tree s ls = Some t /\
            nth_error (trees s) iMin = Some t /\
            In t (trees s).
Proof.
  split.
  - repeat split; try reflexivity; discriminate.
  - apply closest_tree_index_in_bounds;
      [discriminate|reflexivity|reflexivity].
Defined.

End ClosestTreeClaims.

(** ** The tree store's request *)

Section FetchTrees.

Import TreeStore.

Lemma step_flag_backed (e : event) (p p' : process) :
  step e p = Some p' -> flag_backed p -> flag_backed p'.
Proof.
  unfold flag_backed. destruct e as [|o|]; simpl.
  - intros [= <-] _ _. simpl. lia.
  - destruct (fetching p) as [|n]; [discriminate|].
    intros [= <-]. simpl. lia.
  - destruct (finishing p) as [|n]; [discriminate|].
    intros [= <-]. simpl. discriminate.
Qed.

Lemma run_flag_backed (events : list event) :
  forall p p', run events p = Some p' -> flag_backed p -> flag_backed p'.
Proof.
  induction events as [|e rest IH]; intros p p'; simpl.
  - intros [= <-]. auto.
  - destruct (step e p) as [q|] eqn:E; [|discriminate].
    intros Hrun Hp. apply (IH q p' Hrun).
    exact (step_flag_backed e p q E Hp).
Qed.

Lemma start_flag_backed : flag_backed start.
Proof. unfold flag_backed. simpl. discriminate. Qed.

End FetchTrees.

(** ** The event loop *)

Section EventLoop.

Import App.

(** A run of the two stores is the pair of the runs of each store on
    its own events. *)
Lemma run_factor (events : list event) :
  forall w,
    run events w =
    match TreeStore.run (tree_events events) (treeStore w),
          LocationStore.run (location_events events) (locationStore w) with
    | Some t, Some l => Some {| treeStore := t; locationStore := l |}
    | _, _ => None
    end.
Proof.
  induction events as [|[e|e] rest IH]; intros [t l]; simpl.
  - reflexivity.
  - destruct (TreeStore.step e t) as [t'|]; [|reflexivity].
    rewrite IH. reflexivity.
  - destruct (LocationStore.step e l) as [l'|].
    + rewrite IH. reflexivity.
    + destruct (TreeStore.run (tree_events rest) t); reflexivity.
Qed.

End EventLoop.

Section StoreClaims.

Import Fixtures.

(** C4. [loading] is true right after [fetch_trees] is called and false
    right after the promise chain of the request has run, fulfilled or
    rejected.  In every run of the event loop, whatever the location
    store does meanwhile, a raised flag has a chain behind it that has not
    run to its end, and such a chain can always run to its end, which
    lowers the flag: the flag is not left raised once the requests have
    settled. *)
Theorem loading_spans_the_request :
  (forall s, TreeStore.loading (TreeStore.fetch_trees s) = true) /\
  (forall o s, TreeStore.loading (TreeStore.settle o s) = false) /\
  (forall o s,
      TreeStore.loading (TreeStore.settle o (TreeStore.fetch_trees s))
      = false) /\
  (forall events w,
      App.run events App.start = Some w ->
      TreeStore.loading (TreeStore.store (App.treeStore w)) = true ->
      0 < TreeStore.fetching (App.treeStore w)
          + TreeStore.finishing (App.treeStore w)) /\
  (forall events w,
      App.run events App.start = Some w ->
      TreeStore.fetching (App.treeStore w) = 0 ->
      TreeStore.finishing (App.treeStore w) = 0 ->
      TreeStore.loading (TreeStore.store (App.treeStore w)) = false) /\
  (forall p o,
      0 < TreeStore.fetching p ->
      exists p',
        TreeStore.run [TreeStore.Respond o; TreeStore.Finally] p = Some p' /\
        TreeStore.store p' = TreeStore.settle o (TreeStore.store p) /\
        TreeStore.loading (TreeStore.store p') = false /\
        TreeStore.fetching p' = pred (TreeStore.fetching p) /\
        TreeStore.finishing p' = TreeStore.finishing p) /\
  (forall p,
      0 < TreeStore.finishing p ->
      exists p',
        TreeStore.step TreeStore.Finally p = Some p' /\
        TreeStore.loading (TreeStore.store p') = false).
Proof.
  assert (Inv : forall events w,
             App.run events App.start = Some w ->
             TreeStore.flag_backed (App.treeStore w)).
  { intros events w. rewrite run_factor. simpl.
    destruct (TreeStore.run (App.tree_events events) TreeStore.start)
      as [t|] eqn:Ht; [|discriminate].
    destruct (LocationStore.run (App.location_events events)
                                LocationStore.start); [|discriminate].
    intros [= <-]. simpl.
    exact (run_flag_backed _ _ _ Ht start_flag_backed). }
  split; [reflexivity|]. split; [reflexivity|].
  split; [reflexivity|].
  split; [exact Inv|]. split; [|split].
  - intros events w Hrun Hzero Hzero'. specialize (Inv events w Hrun).
    unfold TreeStore.flag_backed in Inv.
    destruct (TreeStore.loading (TreeStore.store (App.treeStore w)));
      [|reflexivity].
    specialize (Inv eq_refl). lia.
  - intros p o Hpos. simpl.
    destruct (TreeStore.fetching p) as [|n]; [lia|]. simpl.
    eexists. split; [reflexivity|]. simpl. repeat split.
  - intros p Hpos. simpl.
    destruct (TreeStore.finishing p) as [|n]; [lia|].
    eexists. split; reflexivity.
Qed.

Lemma loading_spans_the_request_witness :
  let events :=
    App.onMounted true
    ++ [App.TreeEvent TreeStore.Fetch;
        App.TreeEvent (TreeStore.Respond TreeStore.Rejected);
        App.TreeEvent TreeStore.Finally] in
  let w :=
    {| App.treeStore :=
         {| TreeStore.store :=
              {| TreeStore.trees := []; TreeStore.loading := false |};
            TreeStore.fetching := 1;
            TreeStore.finishing := 0 |};
       App.locationStore :=
         {| LocationStore.store := LocationStore.init;
            LocationStore.acquiring := 1 |} |} in
  App.run events App.start = Some w /\
  (TreeStore.loading (TreeStore.store (App.treeStore w)) = true ->
   0 < TreeStore.fetching (App.treeStore w)
       + TreeStore.finishing (App.treeStore w)) /\
  exists p',
    TreeStore.run [TreeStore.Respond (TreeStore.Fulfilled [A00]);
                   TreeStore.Finally] (App.treeStore w) = Some p' /\
    TreeStore.store p'
    = TreeStore.settle (TreeStore.Fulfilled [A00])
                       (TreeStore.store (App.treeStore w)) /\
    TreeStore.loading (TreeStore.store p') = false /\
    TreeStore.fetching p' = pred (TreeStore.fetching (App.treeStore w)) /\
    TreeStore.finishing p' = TreeStore.finishing (App.treeStore w).
Proof.
  split; [reflexivity|]. split.
  - apply (proj1 (proj2 (proj2 (proj2 loading_spans_the_request)))
             (App.onMounted true
              ++ [App.TreeEvent TreeStore.Fetch;
                  App.TreeEvent (TreeStore.Respond TreeStore.Rejected);
                  App.TreeEvent TreeStore.Finally])).
    reflexivity.
  - apply (proj1 (proj2 (proj2 (proj2 (proj2 (proj2
             loading_spans_the_request)))))).
    simpl. lia.
Defined.

(** C5. When the request is rejected, [.then] is skipped and [.finally]
    runs: the store ends with the trees it had and the flag lowered, and
    that is the whole of the store, no error is recorded in it.  The same
    holds turn by turn in the event loop. *)
Theorem fetch_failure_keeps_trees (s : TreeStore.state) :
  TreeStore.respond TreeStore.Rejected s = s /\
  TreeStore.settle TreeStore.Rejected s
  = {| TreeStore.trees := TreeStore.trees s; TreeStore.loading := false |} /\
  TreeStore.settle TreeStore.Rejected (TreeStore.fetch_trees s)
  = {| TreeStore.trees := TreeStore.trees s; TreeStore.loading := false |} /\
  (forall n m,
      TreeStore.run [TreeStore.Respond TreeStore.Rejected; TreeStore.Finally]
        {| TreeStore.store := s;
           TreeStore.fetching := S n;
           TreeStore.finishing := m |}
      = Some {| TreeStore.store :=
                  {| TreeStore.trees := TreeStore.trees s;
                     TreeStore.loading := false |};
                TreeStore.fetching := n;
                TreeStore.finishing := m |}).
Proof. repeat split. Qed.

(** C6. When [navigator.geolocation] is missing, [locate_user] lowers
    [locatable], leaves [location] as it was and requests nothing; when
    the acquisition fails, for whatever cause, the error callback lowers
    [locatable] and leaves [location] as it was. *)
Theorem locate_failure_keeps_location (s : LocationStore.state) :
  LocationStore.locate_user false s
  = ({| LocationStore.locatable := false;
        LocationStore.location := LocationStore.location s |}, false) /\
  (forall n,
      LocationStore.step (LocationStore.Locate false)
        {| LocationStore.store := s; LocationStore.acquiring := n |}
      = Some {| LocationStore.store :=
                  {| LocationStore.locatable := false;
                     LocationStore.location := LocationStore.location s |};
                LocationStore.acquiring := n |}) /\
  (forall error,
      LocationStore.settle (LocationStore.Failure error) s
      = {| LocationStore.locatable := false;
           LocationStore.location := LocationStore.location s |}) /\
  (forall error n,
      LocationStore.step (LocationStore.Settle (LocationStore.Failure error))
        {| LocationStore.store := s; LocationStore.acquiring := S n |}
      = Some {| LocationStore.store :=
                  {| LocationStore.locatable := false;
                     LocationStore.location := LocationStore.location s |};
                LocationStore.acquiring := n |}).
Proof. repeat split. Qed.

(** C7. When the acquisition succeeds, the success callback overwrites
    both coordinates of [location] with the reported ones and raises
    [locatable]. *)
Theorem locate_success_overwrites_location
    (coords : Location) (s : LocationStore.state) :
  LocationStore.settle (LocationStore.Success coords) s
  = {| LocationStore.locatable := true;
       LocationStore.location := coords |} /\
  latitude (LocationStore.location (LocationStore.on_success coords s))
  = latitude coords /\
  longitude (LocationStore.location (LocationStore.on_success coords s))
  = longitude coords /\
  LocationStore.locatable (LocationStore.on_success coords s) = true.
Proof. destruct coords. repeat split. Qed.

End StoreClaims.

Section ResolverClaims.

Import Fixtures.



End ResolverClaims.

(** ** Further facts of binary64 arithmetic *)

Module NumberEdgeFacts.

Lemma ltb_nan_r (x y : float) : is_nan y = true -> (x <? y)%float = false.
Proof.
  intros H. apply NumberFacts.Prim2SF_is_nan in H.
  rewrite FloatAxioms.ltb_spec, H. unfold SFltb.
  destruct (Prim2SF x) as [s|s| |s m e]; reflexivity.
Qed.

Lemma SFcompare_some_not_nan (a b : spec_float) (c : comparison) :
  SFcompare a b = Some c -> SFcompare a a <> None /\ SFcompare b b <> None.
Proof.
  destruct a as [sa|sa| |sa ma ea], b as [sb|sb| |sb mb eb]; simpl;
    try discriminate; intros _; split; discriminate.
Qed.

Lemma compare_not_nan (x : float) :
  SFcompare (Prim2SF x) (Prim2SF x) <> None -> is_nan x = false.
Proof.
  intros H. destruct (is_nan x) eqn:E; [|reflexivity].
  apply NumberFacts.Prim2SF_is_nan in E. rewrite E in H. simpl in H.
  congruence.
Qed.

Lemma ltb_not_nan (x y : float) :
  (x <? y)%float = true -> is_nan x = false /\ is_nan y = false.
Proof.
  rewrite FloatAxioms.ltb_spec. unfold SFltb.
  destruct (SFcompare (Prim2SF x) (Prim2SF y)) as [c|] eqn:E;
    [|discriminate].
  intros _. apply SFcompare_some_not_nan in E.
  split; apply compare_not_nan; tauto.
Qed.

Lemma leb_not_nan (x y : float) :
  (x <=? y)%float = true -> is_nan x = false /\ is_nan y = false.
Proof.
  rewrite FloatAxioms.leb_spec. unfold SFleb.
  destruct (SFcompare (Prim2SF x) (Prim2SF y)) as [c|] eqn:E;
    [|discriminate].
  intros _. apply SFcompare_some_not_nan in E.
  split; apply compare_not_nan; tauto.
Qed.

Lemma SFleb_antisym (a b : spec_float) :
  SFleb a b = true -> SFleb b a = true -> SFeqb a b = true.
Proof.
  unfold SFleb, SFeqb.
  destruct a as [sa|sa| |sa ma ea], b as [sb|sb| |sb mb eb]; simpl;
    try destruct sa; try destruct sb; simpl; try congruence.
  all: destruct (Z.compare_spec ea eb), (Z.compare_spec eb ea);
         try lia; simpl; try congruence.
  all: subst.
  all: change (Pos.compare_cont Eq ?x ?y) with (Pos.compare x y).
  all: destruct (Pos.compare_spec ma mb), (Pos.compare_spec mb ma);
         simpl; try congruence; try lia.
Qed.

Lemma leb_antisym (x y : float) :
  (x <=? y)%float = true -> (y <=? x)%float = true -> (x =? y)%float = true.
Proof.
  rewrite !FloatAxioms.leb_spec, FloatAxioms.eqb_spec. apply SFleb_antisym.
Qed.

(** *** Squares, their sums and square roots are never negative *)

Lemma SFmul_square_sign (x : spec_float) :
  Number.nan_or_positive (SF64mul x x).
Proof.
  destruct x as [s|s| |s m e] eqn:E.
  4: right; rewrite <- E; apply NumberFacts.SFmul_square; congruence.
  all: unfold Number.nan_or_positive; simpl;
    try (right; destruct s; reflexivity); left; reflexivity.
Qed.

Lemma SFadd_sign (x y : spec_float) :
  Number.nan_or_positive x -> Number.nan_or_positive y ->
  Number.nan_or_positive (SF64add x y).
Proof.
  intros [-> | Hx]; [left; reflexivity|].
  intros [-> | Hy]; [left; destruct x; reflexivity|].
  right. apply NumberFacts.SFadd_signed; assumption.
Qed.

Lemma SFsqrt_sign (x : spec_float) :
  Number.nan_or_positive x -> Number.nan_or_positive (SF64sqrt x).
Proof.
  intros [-> | Hx]; [left; reflexivity|]. right.
  unfold SF64sqrt, SFsqrt.
  destruct x as [s|s| |s m e]; simpl in Hx; try contradiction; subst s;
    try reflexivity.
  unfold SFsqrt_core_binary.
  set (m' := match (e - 2 * _)%Z with Z0 => _ | Z.pos _ => _ | Z.neg _ => _ end).
  assert (Hm : (0 <= m')%Z).
  { unfold m'. destruct (e - 2 * _)%Z; try lia.
    apply Z.shiftl_nonneg. lia. }
  pose proof (Z.sqrtrem_spec m' Hm) as Hs.
  destruct (Z.sqrtrem m') as [q r].
  apply NumberFacts.binary_round_aux_signed. lia.
Qed.

Lemma sqrt_sum_squares_sign (a b : float) :
  Number.nan_or_positive (Prim2SF (sqrt (a * a + b * b))%float).
Proof.
  rewrite sqrt_spec, add_spec, !mul_spec.
  apply SFsqrt_sign, SFadd_sign; apply SFmul_square_sign.
Qed.

Lemma Prim2SF_zero : Prim2SF 0%float = S754_zero false.
Proof. reflexivity. Qed.

Lemma nan_or_positive_not_below_zero (x : float) :
  Number.nan_or_positive (Prim2SF x) -> (x <? 0)%float = false.
Proof.
  rewrite FloatAxioms.ltb_spec, Prim2SF_zero. unfold SFltb.
  intros [-> | H]; [reflexivity|].
  destruct (Prim2SF x) as [s|s| |s m e]; simpl in H; try contradiction;
    subst; reflexivity.
Qed.

(** *** The difference of a finite number with itself is zero *)

Lemma SFsub_diag (x : spec_float) :
  Number.bounded_value x -> SF64sub x x = S754_zero false.
Proof.
  unfold SF64sub, SFsub.
  destruct x as [s|s| |s m e]; simpl; try contradiction; intros _.
  - destruct s; reflexivity.
  - rewrite Z.sub_diag. reflexivity.
Qed.

Lemma sqrt_sum_squares_diag (a b : float) :
  is_finite a = true -> is_finite b = true ->
  Prim2SF (sqrt ((a - a) * (a - a) + (b - b) * (b - b)))%float
  = S754_zero false.
Proof.
  intros Ha Hb.
  rewrite sqrt_spec, add_spec, !mul_spec, !sub_spec.
  rewrite !SFsub_diag by (apply NumberFacts.Prim2SF_bounded; assumption).
  reflexivity.
Qed.

Lemma zero_eqb (x : float) :
  Prim2SF x = S754_zero false -> (x =? 0)%float = true.
Proof.
  intros H. rewrite FloatAxioms.eqb_spec, H, Prim2SF_zero. reflexivity.
Qed.

(** Nothing lies between zero and a value that is not above zero. *)
Lemma not_above_zero (x y : float) :
  Number.nan_or_positive (Prim2SF x) -> is_nan x = false ->
  Prim2SF y = S754_zero false ->
  (y <? x)%float = false -> (x =? 0)%float = true.
Proof.
  intros Hx Hn Hy. rewrite FloatAxioms.ltb_spec, FloatAxioms.eqb_spec, Hy.
  rewrite Prim2SF_zero.
  destruct Hx as [Hx | Hx].
  - apply NumberFacts.Prim2SF_is_nan in Hx. congruence.
  - unfold SFltb, SFeqb.
    destruct (Prim2SF x) as [s|s| |s m e]; simpl in Hx; try contradiction;
      subst; simpl; congruence.
Qed.

End NumberEdgeFacts.

(** ** More on the minimum scan and the getter *)

Section ScanEdges.

Import TreeStore.

(** Whatever every call of the reduce callback keeps, the scan keeps. *)
Lemma scan_invariant (distances : list float) (P : nat -> Prop) :
  (forall c i x, P c -> nth_error distances i = Some x ->
                 P (smaller distances c x i)) ->
  forall stretch tail i c,
    skipn i distances = stretch ++ tail ->
    P c -> P (reduce_from (smaller distances) stretch i c).
Proof.
  intros Hstep stretch.
  induction stretch as [|x rest IH]; intros tail i c Hskip Hc; simpl.
  - exact Hc.
  - simpl in Hskip. apply skipn_cons in Hskip. destruct Hskip as [Hi Hskip].
    apply (IH tail); [exact Hskip|]. apply Hstep; assumption.
Qed.

Lemma reduce_invariant (distances : list float) (P : nat -> Prop) :
  (forall c i x, P c -> nth_error distances i = Some x ->
                 P (smaller distances c x i)) ->
  P 0 -> P (reduce (smaller distances) distances 0).
Proof.
  intros Hstep H0. unfold reduce.
  apply (scan_invariant distances P Hstep distances [] 0 0);
    [simpl; symmetry; apply app_nil_r|exact H0].
Qed.

(** Distances appended to the array do not change the scan of the part
    before them. *)
Lemma scan_extend (distances more : list float) :
  forall stretch tail i c,
    skipn i distances = stretch ++ tail ->
    c < List.length distances ->
    reduce_from (smaller (distances ++ more)) stretch i c
    = reduce_from (smaller distances) stretch i c
    /\ reduce_from (smaller distances) stretch i c < List.length distances.
Proof.
  intros stretch.
  induction stretch as [|x rest IH]; intros tail i c Hskip Hc; simpl.
  - split; [reflexivity|exact Hc].
  - simpl in Hskip. apply skipn_cons in Hskip. destruct Hskip as [Hi Hskip].
    assert (Hsame : smaller (distances ++ more) c x i = smaller distances c x i).
    { unfold smaller. rewrite nth_error_app1 by exact Hc. reflexivity. }
    rewrite Hsame. apply (IH tail); [exact Hskip|].
    unfold smaller.
    destruct (Number.lt_undefined x (nth_error distances c)); [|exact Hc].
    apply nth_error_Some. congruence.
Qed.

Lemma guards_pass_cons (t : Tree) (rest : list Tree) (s : state)
    (ls : LocationStore.state) :
  trees s = t :: rest -> loading s = false ->
  LocationStore.locatable ls = true ->
  closest_tree s ls
  = nth_error (trees s)
      (reduce
         (smaller (map (distance (LocationStore.location ls)) (trees s)))
         (map (distance (LocationStore.location ls)) (trees s)) 0).
Proof.
  intros Ht Hload Hloc. unfold closest_tree.
  rewrite (guards_pass s ls); [reflexivity| |assumption|assumption].
  rewrite Ht. discriminate.
Qed.

(** X1. When the distance of the first tree is NaN, no later distance
    compares below it and the getter returns the first tree, whatever the
    other trees are. *)
Theorem closest_tree_first_nan (s : state) (ls : LocationStore.state)
    (t : Tree) (rest : list Tree) :
  trees s = t :: rest -> loading s = false ->
  LocationStore.locatable ls = true ->
  is_nan (distance (LocationStore.location ls) t) = true ->
  closest_tree s ls = Some t.
Proof.
  intros Ht Hload Hloc Hnan.
  rewrite (guards_pass_cons t rest s ls Ht Hload Hloc).
  set (distances := map (distance (LocationStore.location ls)) (trees s)).
  assert (H0 : reduce (smaller distances) distances 0 = 0).
  { apply (reduce_invariant distances (fun c => c = 0)); [|reflexivity].
    intros c i x -> _. unfold smaller, distances. rewrite Ht. simpl.
    rewrite (NumberEdgeFacts.ltb_nan_r _ _ Hnan). reflexivity. }
  rewrite H0, Ht. reflexivity.
Qed.

Lemma closest_tree_first_nan_witness :
  let s := Fixtures.loaded [Fixtures.tree "N" nan 0; Fixtures.A00] in
  let ls := Fixtures.at_position 0 0 in
  closest_tree s ls = Some (Fixtures.tree "N" nan 0).
Proof.
  apply (closest_tree_first_nan _ _ (Fixtures.tree "N" nan 0) [Fixtures.A00]);
    reflexivity.
Defined.

(** X2. When the distance of the first tree is not NaN, the getter never
    returns a tree whose distance is NaN: such trees are passed over. *)
Theorem closest_tree_skips_nan (s : state) (ls : LocationStore.state)
    (t0 : Tree) (rest : list Tree) :
  trees s = t0 :: rest -> loading s = false ->
  LocationStore.locatable ls = true ->
  is_nan (distance (LocationStore.location ls) t0) = false ->
  exists t, closest_tree s ls = Some t /\
            In t (trees s) /\
            is_nan (distance (LocationStore.location ls) t) = false.
Proof.
  intros Ht Hload Hloc Hnan.
  rewrite (guards_pass_cons t0 rest s ls Ht Hload Hloc).
  set (distances := map (distance (LocationStore.location ls)) (trees s)).
  assert (H : exists d, nth_error distances
                          (reduce (smaller distances) distances 0) = Some d
                        /\ is_nan d = false).
  { apply (reduce_invariant distances
             (fun c => exists d, nth_error distances c = Some d
                                 /\ is_nan d = false)).
    - intros c i x (d & Hc & Hd) Hi. unfold smaller. rewrite Hc. simpl.
      destruct (x <? d)%float eqn:E.
      + exists x. split; [exact Hi|].
        apply (NumberEdgeFacts.ltb_not_nan _ _ E).
      + exists d. split; assumption.
    - exists (distance (LocationStore.location ls) t0).
      unfold distances. rewrite Ht. split; [reflexivity|exact Hnan]. }
  destruct H as (d & Hd & Hdn).
  unfold distances in Hd at 1. rewrite nth_error_map in Hd.
  destruct (nth_error (trees s) _) as [t|] eqn:E; [|discriminate].
  simpl in Hd. injection Hd as <-.
  exists t. split; [reflexivity|]. split; [|exact Hdn].
  eapply nth_error_In. exact E.
Qed.

Lemma closest_tree_skips_nan_witness :
  let s := Fixtures.loaded [Fixtures.B11; Fixtures.tree "N" nan 0] in
  let ls := Fixtures.at_position 0 0 in
  exists t, closest_tree s ls = Some t /\
            In t (trees s) /\
            is_nan (distance (LocationStore.location ls) t) = false.
Proof.
  apply (closest_tree_skips_nan _ _ Fixtures.B11 [Fixtures.tree "N" nan 0]);
    reflexivity.
Defined.

End ScanEdges.

Section GetterLaws.

Import TreeStore.

(** X3. The getter is complete for the leftmost minimum: a tree whose
    distance is below or equal to every tree's distance, and that no tree
    to its left matches or beats, is the tree the getter returns. *)
Theorem closest_tree_is_leftmost_minimum (s : state)
    (ls : LocationStore.state) (i : nat) (t : Tree) :
  loading s = false -> LocationStore.locatable ls = true ->
  nth_error (trees s) i = Some t ->
  (forall t', In t' (trees s) ->
              (distance (LocationStore.location ls) t
               <=? distance (LocationStore.location ls) t')%float = true) ->
  (forall j t', j < i -> nth_error (trees s) j = Some t' ->
                (distance (LocationStore.location ls) t'
                 <=? distance (LocationStore.location ls) t)%float = false) ->
  closest_tree s ls = Some t /\
  reduce (smaller (map (distance (LocationStore.location ls)) (trees s)))
         (map (distance (LocationStore.location ls)) (trees s)) 0 = i.
Proof.
  intros Hload Hloc Hi Hmin Hleft.
  assert (Hne : trees s <> []).
  { intros E. rewrite E in Hi. destruct i; discriminate. }
  destruct (closest_tree_found s ls Hne Hload Hloc)
    as (r & Hres & Hr & Hlt & Hle).
  set (user := LocationStore.location ls) in *.
  set (iMin := reduce (smaller (map (distance user) (trees s)))
                      (map (distance user) (trees s)) 0) in *.
  assert (Hin_r : In r (trees s)) by (eapply nth_error_In; exact Hr).
  assert (Hin_t : In t (trees s)) by (eapply nth_error_In; exact Hi).
  assert (E : iMin = i).
  { destruct (Nat.lt_trichotomy iMin i) as [H | [H | H]]; [|exact H|].
    - exfalso.
      pose proof (Hleft iMin r H Hr) as Hcontra.
      pose proof (Hmin r Hin_r) as Htr.
      pose proof (Hmin t Hin_t) as Htt.
      destruct (NumberEdgeFacts.leb_not_nan _ _ Htr) as [Hnt Hnr].
      rewrite (NumberFacts.not_ltb_leb _ _ Hnr Hnt (Hlt i t Hi)) in Hcontra.
      discriminate.
    - exfalso.
      pose proof (Hle i t H Hi) as Hcontra.
      rewrite (Hmin r Hin_r) in Hcontra. discriminate. }
  split; [|exact E].
  rewrite Hres. rewrite E in Hr. congruence.
Qed.

Lemma closest_tree_is_leftmost_minimum_witness :
  let s := Fixtures.loaded [Fixtures.B11; Fixtures.A00; Fixtures.B00] in
  let ls := Fixtures.at_position 0 0 in
  closest_tree s ls = Some Fixtures.A00 /\
  reduce (smaller (map (distance (LocationStore.location ls)) (trees s)))
         (map (distance (LocationStore.location ls)) (trees s)) 0 = 1.
Proof.
  apply (closest_tree_is_leftmost_minimum _ _ 1 Fixtures.A00);
    try reflexivity.
  - intros t' [<- | [<- | [<- | []]]]; reflexivity.
  - intros [|[|j]] t' Hj; try lia. intros [= <-]. reflexivity.
Defined.

(** X4. Appending one tree to the collection changes the result only if
    the new tree is strictly closer than the tree returned before; then
    the new tree is returned. *)
Theorem closest_tree_append (s : state) (ls : LocationStore.state)
    (t x : Tree) :
  loading s = false -> LocationStore.locatable ls = true ->
  closest_tree s ls = Some t ->
  closest_tree {| trees := trees s ++ [x]; loading := loading s |} ls
  = if (distance (LocationStore.location ls) x
        <? distance (LocationStore.location ls) t)%float
    then Some x else Some t.
Proof.
  intros Hload Hloc Hres.
  assert (Hne : trees s <> []).
  { intros E. unfold closest_tree in Hres. rewrite E, Hload, Hloc in Hres.
    discriminate. }
  destruct (closest_tree_found s ls Hne Hload Hloc) as (r & Hres' & Hr & _).
  assert (r = t) by congruence. subst r.
  set (user := LocationStore.location ls) in *.
  set (distances := map (distance user) (trees s)) in *.
  set (iMin := reduce (smaller distances) distances 0) in *.
  assert (Ht : exists t0 rest, trees s = t0 :: rest).
  { destruct (trees s) as [|t0 rest]; [congruence|]. eauto. }
  destruct Ht as (t0 & rest & Ht).
  assert (Hne' : trees {| trees := trees s ++ [x]; loading := loading s |}
                 = t0 :: (rest ++ [x])).
  { simpl. rewrite Ht. reflexivity. }
  rewrite (guards_pass_cons t0 (rest ++ [x]) _ ls Hne' Hload Hloc).
  cbn [trees]. fold user. rewrite map_app. fold distances. cbn [map].
  assert (Hlen : 0 < List.length distances).
  { unfold distances. rewrite Ht. simpl. lia. }
  destruct (scan_extend distances [distance user x] distances [] 0 0
              ltac:(simpl; symmetry; apply app_nil_r) Hlen) as [Hsame Hin].
  unfold reduce. rewrite reduce_from_app, Hsame. fold (reduce (smaller distances) distances 0).
  fold iMin. fold iMin in Hin. simpl.
  assert (Hd : nth_error (distances ++ [distance user x]) iMin
               = Some (distance user t)).
  { rewrite nth_error_app1 by exact Hin.
    unfold distances. rewrite nth_error_map, Hr. reflexivity. }
  unfold smaller. rewrite Hd. simpl.
  destruct (distance user x <? distance user t)%float.
  - rewrite nth_error_app2 by (unfold distances; rewrite length_map; lia).
    unfold distances. rewrite length_map, Nat.sub_diag. reflexivity.
  - rewrite nth_error_app1; [exact Hr|].
    apply nth_error_Some. congruence.
Qed.

Lemma closest_tree_append_witness :
  let s := Fixtures.loaded [Fixtures.B11] in
  let ls := Fixtures.at_position 0 0 in
  closest_tree {| trees := trees s ++ [Fixtures.A00]; loading := loading s |} ls
  = if (distance (LocationStore.location ls) Fixtures.A00
        <? distance (LocationStore.location ls) Fixtures.B11)%float
    then Some Fixtures.A00 else Some Fixtures.B11.
Proof.
  apply (closest_tree_append _ _ Fixtures.B11 Fixtures.A00); reflexivity.
Defined.

End GetterLaws.

Section DistanceLaws.

Import TreeStore.

Lemma distance_sign (user : Location) (tree : Tree) :
  Number.nan_or_positive (Prim2SF (distance user tree)).
Proof. unfold distance. cbv zeta. apply NumberEdgeFacts.sqrt_sum_squares_sign. Qed.

Lemma distance_at_position (user : Location) (tree : Tree) :
  finite_location user = true -> location tree = user ->
  Prim2SF (distance user tree) = S754_zero false.
Proof.
  unfold finite_location. intros Hu Ht.
  apply andb_true_iff in Hu. destruct Hu as [Hlat Hlon].
  unfold distance. cbv zeta. rewrite Ht.
  apply NumberEdgeFacts.sqrt_sum_squares_diag; assumption.
Qed.

(** X5. The distance is never negative, whatever the coordinates are
    (it may be NaN), and a tree at the user's own finite position is at
    distance zero. *)
Theorem distance_never_negative :
  (forall user tree, (distance user tree <? 0)%float = false) /\
  (forall user tree,
      finite_location user = true -> location tree = user ->
      (distance user tree =? 0)%float = true).
Proof.
  split.
  - intros user tree.
    apply NumberEdgeFacts.nan_or_positive_not_below_zero, distance_sign.
  - intros user tree Hu Ht.
    apply NumberEdgeFacts.zero_eqb, distance_at_position; assumption.
Qed.

Lemma distance_never_negative_witness :
  (distance {| latitude := 51; longitude := 3 |}
            (Fixtures.tree "T" 51 3) =? 0)%float = true.
Proof.
  apply (proj2 distance_never_negative); reflexivity.
Defined.

(** X6. When all coordinates are finite and some tree stands at the
    user's own position, the getter returns a tree at distance zero. *)
Theorem closest_tree_at_user_position (s : state) (ls : LocationStore.state)
    (here : Tree) :
  loading s = false -> LocationStore.locatable ls = true ->
  finite_location (LocationStore.location ls) = true ->
  (forall t, In t (trees s) -> finite_location (location t) = true) ->
  In here (trees s) -> location here = LocationStore.location ls ->
  exists t, closest_tree s ls = Some t /\
            In t (trees s) /\
            (distance (LocationStore.location ls) t =? 0)%float = true.
Proof.
  intros Hload Hloc Hu Hfin Hin Hhere.
  assert (Hne : trees s <> []) by (intros E; rewrite E in Hin; exact Hin).
  destruct (closest_tree_found s ls Hne Hload Hloc) as (t & Hres & Ht & Hlt & _).
  assert (Hin_t : In t (trees s)) by (eapply nth_error_In; exact Ht).
  exists t. split; [exact Hres|]. split; [exact Hin_t|].
  apply In_nth_error in Hin. destruct Hin as [j Hj].
  apply (NumberEdgeFacts.not_above_zero _
           (distance (LocationStore.location ls) here)).
  - apply distance_sign.
  - apply distance_not_nan; auto.
  - apply distance_at_position; assumption.
  - exact (Hlt j here Hj).
Qed.

Lemma closest_tree_at_user_position_witness :
  let s := Fixtures.loaded [Fixtures.B11; Fixtures.A00] in
  let ls := Fixtures.at_position 0 0 in
  exists t, closest_tree s ls = Some t /\
            In t (trees s) /\
            (distance (LocationStore.location ls) t =? 0)%float = true.
Proof.
  apply (closest_tree_at_user_position _ _ Fixtures.A00); try reflexivity.
  - intros t [<- | [<- | []]]; reflexivity.
  - right. left. reflexivity.
Defined.

(** With finite coordinates the returned tree is below or equal to all. *)
Lemma closest_tree_below_all (s : state) (ls : LocationStore.state) :
  trees s <> [] -> loading s = false -> LocationStore.locatable ls = true ->
  finite_location (LocationStore.location ls) = true ->
  (forall t, In t (trees s) -> finite_location (location t) = true) ->
  exists t, closest_tree s ls = Some t /\ In t (trees s) /\
            forall t', In t' (trees s) ->
                       (distance (LocationStore.location ls) t
                        <=? distance (LocationStore.location ls) t')%float
                       = true.
Proof.
  intros Hne Hload Hloc Hu Hfin.
  destruct (closest_tree_found s ls Hne Hload Hloc) as (t & Hres & Ht & Hlt & _).
  assert (Hin : In t (trees s)) by (eapply nth_error_In; exact Ht).
  exists t. split; [exact Hres|]. split; [exact Hin|].
  intros t' Hin'.
  apply NumberFacts.not_ltb_leb; try (apply distance_not_nan; auto).
  apply In_nth_error in Hin'. destruct Hin' as [j Hj].
  exact (Hlt j t' Hj).
Qed.

(** X7. With finite coordinates the distance of the returned tree does
    not depend on the order of the collection: two collections with the
    same trees give results at numerically equal distances. *)
Theorem closest_distance_ignores_order (s s' : state)
    (ls : LocationStore.state) :
  loading s = false -> loading s' = false ->
  LocationStore.locatable ls = true ->
  trees s <> [] ->
  (forall t, In t (trees s) <-> In t (trees s')) ->
  finite_location (LocationStore.location ls) = true ->
  (forall t, In t (trees s) -> finite_location (location t) = true) ->
  exists t t',
    closest_tree s ls = Some t /\ closest_tree s' ls = Some t' /\
    (distance (LocationStore.location ls) t
     =? distance (LocationStore.location ls) t')%float = true.
Proof.
  intros Hload Hload' Hloc Hne Hsame Hu Hfin.
  assert (Hne' : trees s' <> []).
  { destruct (trees s) as [|t0 rest] eqn:E; [congruence|].
    intros E'. assert (H : In t0 (trees s')) by (apply Hsame; left; reflexivity).
    rewrite E' in H. exact H. }
  assert (Hfin' : forall t, In t (trees s') -> finite_location (location t) = true).
  { intros t Ht. apply Hfin, Hsame, Ht. }
  destruct (closest_tree_below_all s ls Hne Hload Hloc Hu Hfin)
    as (t & Hres & Hin & Hmin).
  destruct (closest_tree_below_all s' ls Hne' Hload' Hloc Hu Hfin')
    as (t' & Hres' & Hin' & Hmin').
  exists t, t'. split; [exact Hres|]. split; [exact Hres'|].
  apply NumberEdgeFacts.leb_antisym.
  - apply Hmin. apply Hsame, Hin'.
  - apply Hmin'. apply Hsame, Hin.
Qed.

Lemma closest_distance_ignores_order_witness :
  let s := Fixtures.loaded [Fixtures.A00; Fixtures.B00] in
  let s' := Fixtures.loaded [Fixtures.B00; Fixtures.A00] in
  let ls := Fixtures.at_position 1 1 in
  exists t t',
    closest_tree s ls = Some t /\ closest_tree s' ls = Some t' /\
    (distance (LocationStore.location ls) t
     =? distance (LocationStore.location ls) t')%float = true.
Proof.
  apply closest_distance_ignores_order; try reflexivity.
  - discriminate.
  - intros t. simpl. tauto.
  - intros t [<- | [<- | []]]; reflexivity.
Defined.

End DistanceLaws.

(** ** Runs of the stores *)

Section StoreRuns.

Lemma location_run_app (events1 events2 : list LocationStore.event) :
  forall p,
    LocationStore.run (events1 ++ events2) p
    = match LocationStore.run events1 p with
      | Some q => LocationStore.run events2 q
      | None => None
      end.
Proof.
  induction events1 as [|e rest IH]; intros p; simpl; [reflexivity|].
  destruct (LocationStore.step e p); [apply IH|reflexivity].
Qed.

Lemma tree_run_app (events1 events2 : list TreeStore.event) :
  forall p,
    TreeStore.run (events1 ++ events2) p
    = match TreeStore.run events1 p with
      | Some q => TreeStore.run events2 q
      | None => None
      end.
Proof.
  induction events1 as [|e rest IH]; intros p; simpl; [reflexivity|].
  destruct (TreeStore.step e p); [apply IH|reflexivity].
Qed.

(** A raised [locatable] comes with a location that a success callback
    wrote, unless both were there before the run. *)
Lemma locatable_origin (events : list LocationStore.event) :
  forall p p',
    LocationStore.run events p = Some p' ->
    LocationStore.locatable (LocationStore.store p') = true ->
    In (LocationStore.Settle
          (LocationStore.Success
             (LocationStore.location (LocationStore.store p')))) events
    \/ (LocationStore.locatable (LocationStore.store p) = true /\
        LocationStore.location (LocationStore.store p')
        = LocationStore.location (LocationStore.store p)).
Proof.
  induction events as [|e rest IH]; intros p p'; simpl.
  - intros [= <-] H. right. split; [exact H|reflexivity].
  - destruct (LocationStore.step e p) as [q|] eqn:E; [|discriminate].
    intros Hrun Hloc.
    destruct (IH q p' Hrun Hloc) as [Hin | [Hq Hsame]]; [left; right; exact Hin|].
    destruct e as [[|]|[[lat lon]|error]]; simpl in E.
    + injection E as <-. right. split; assumption.
    + injection E as <-. simpl in Hq. discriminate.
    + destruct (LocationStore.acquiring p); [discriminate|].
      injection E as <-. simpl in Hsame. left. left. rewrite Hsame.
      reflexivity.
    + destruct (LocationStore.acquiring p); [discriminate|].
      injection E as <-. simpl in Hq. discriminate.
Qed.

(** The trees of the store are those of a fulfilled response, unless they
    were there before the run. *)
Lemma trees_origin (events : list TreeStore.event) :
  forall p p',
    TreeStore.run events p = Some p' ->
    In (TreeStore.Respond
          (TreeStore.Fulfilled (TreeStore.trees (TreeStore.store p')))) events
    \/ TreeStore.trees (TreeStore.store p')
       = TreeStore.trees (TreeStore.store p).
Proof.
  induction events as [|e rest IH]; intros p p'; simpl.
  - intros [= <-]. right. reflexivity.
  - destruct (TreeStore.step e p) as [q|] eqn:E; [|discriminate].
    intros Hrun.
    destruct (IH q p' Hrun) as [Hin | Hsame]; [left; right; exact Hin|].
    destruct e as [|[data|]|]; simpl in E.
    + injection E as <-. right. exact Hsame.
    + destruct (TreeStore.fetching p); [discriminate|].
      injection E as <-. simpl in Hsame. left. left. rewrite Hsame.
      reflexivity.
    + destruct (TreeStore.fetching p); [discriminate|].
      injection E as <-. right. exact Hsame.
    + destruct (TreeStore.finishing p); [discriminate|].
      injection E as <-. right. exact Hsame.
Qed.

(** Events other than a success callback leave the location alone and
    never raise [locatable]. *)
Lemma location_kept (events : list LocationStore.event) :
  forall p p',
    LocationStore.run events p = Some p' ->
    (forall coords,
        ~ In (LocationStore.Settle (LocationStore.Success coords)) events) ->
    LocationStore.location (LocationStore.store p')
    = LocationStore.location (LocationStore.store p) /\
    (LocationStore.locatable (LocationStore.store p) = false ->
     LocationStore.locatable (LocationStore.store p') = false).
Proof.
  induction events as [|e rest IH]; intros p p'; simpl.
  - intros [= <-] _. split; [reflexivity|tauto].
  - destruct (LocationStore.step e p) as [q|] eqn:E; [|discriminate].
    intros Hrun Hno.
    destruct (IH q p' Hrun) as [Hsame Hflag].
    { intros coords Hin. apply (Hno coords). right. exact Hin. }
    destruct e as [[|]|[coords|error]]; simpl in E.
    + injection E as <-. split; assumption.
    + injection E as <-. simpl in *. split; [exact Hsame|].
      intros _. apply Hflag. reflexivity.
    + exfalso. apply (Hno coords). left. reflexivity.
    + destruct (LocationStore.acquiring p); [discriminate|].
      injection E as <-. simpl in *. split; [exact Hsame|].
      intros _. apply Hflag. reflexivity.
Qed.

(** Events other than a fulfilled response leave the trees alone. *)
Lemma trees_kept (events : list TreeStore.event) :
  forall p p',
    TreeStore.run events p = Some p' ->
    (forall data,
        ~ In (TreeStore.Respond (TreeStore.Fulfilled data)) events) ->
    TreeStore.trees (TreeStore.store p') = TreeStore.trees (TreeStore.store p).
Proof.
  induction events as [|e rest IH]; intros p p'; simpl.
  - intros [= <-] _. reflexivity.
  - destruct (TreeStore.step e p) as [q|] eqn:E; [|discriminate].
    intros Hrun Hno.
    rewrite (IH q p' Hrun)
      by (intros data Hin; apply (Hno data); right; exact Hin).
    destruct e as [|[data|]|]; simpl in E.
    + injection E as <-. reflexivity.
    + exfalso. apply (Hno data). left. reflexivity.
    + destruct (TreeStore.fetching p); [discriminate|].
      injection E as <-. reflexivity.
    + destruct (TreeStore.finishing p); [discriminate|].
      injection E as <-. reflexivity.
Qed.

End StoreRuns.

Section StoreRunLaws.

Import Fixtures.

(** X8. Until a success callback has run, the location store holds its
    initial placeholder (latitude 51, longitude 3) and [locatable] is
    false, whatever calls of [locate_user] and error callbacks happened. *)
Theorem placeholder_until_first_fix (events : list LocationStore.event)
    (p : LocationStore.process) :
  LocationStore.run events LocationStore.start = Some p ->
  (forall coords,
      ~ In (LocationStore.Settle (LocationStore.Success coords)) events) ->
  LocationStore.store p
  = {| LocationStore.locatable := false;
       LocationStore.location := {| latitude := 51; longitude := 3 |} |}.
Proof.
  intros Hrun Hno.
  destruct (location_kept events _ _ Hrun Hno) as [Hloc Hflag].
  destruct (LocationStore.store p) as [flag loc]. simpl in *.
  rewrite Hloc, (Hflag eq_refl). reflexivity.
Qed.

Lemma placeholder_until_first_fix_witness :
  let events :=
    [LocationStore.Locate true;
     LocationStore.Settle (LocationStore.Failure LocationStore.TIMEOUT);
     LocationStore.Locate false] in
  LocationStore.run events LocationStore.start
  = Some {| LocationStore.store := LocationStore.init;
            LocationStore.acquiring := 0 |} /\
  LocationStore.store {| LocationStore.store := LocationStore.init;
                         LocationStore.acquiring := 0 |}
  = {| LocationStore.locatable := false;
       LocationStore.location := {| latitude := 51; longitude := 3 |} |}.
Proof.
  split; [reflexivity|].
  apply (placeholder_until_first_fix
           [LocationStore.Locate true;
            LocationStore.Settle (LocationStore.Failure LocationStore.TIMEOUT);
            LocationStore.Locate false]); [reflexivity|].
  intros coords [H | [H | [H | []]]]; discriminate.
Defined.

(** X9. Whenever [locatable] is true, the stored location is one that a
    success callback reported during the run; it is never the placeholder
    by default. *)
Theorem locatable_means_reported_fix (events : list LocationStore.event)
    (p : LocationStore.process) :
  LocationStore.run events LocationStore.start = Some p ->
  LocationStore.locatable (LocationStore.store p) = true ->
  In (LocationStore.Settle
        (LocationStore.Success
           (LocationStore.location (LocationStore.store p)))) events.
Proof.
  intros Hrun Hloc.
  destruct (locatable_origin events _ _ Hrun Hloc) as [H | [H _]];
    [exact H|discriminate].
Qed.

Lemma locatable_means_reported_fix_witness :
  let fix1 := {| latitude := 1; longitude := 1 |} in
  let events :=
    [LocationStore.Locate true;
     LocationStore.Settle (LocationStore.Success fix1);
     LocationStore.Locate true] in
  In (LocationStore.Settle (LocationStore.Success fix1)) events.
Proof.
  apply (locatable_means_reported_fix
           [LocationStore.Locate true;
            LocationStore.Settle
              (LocationStore.Success {| latitude := 1; longitude := 1 |});
            LocationStore.Locate true]
           {| LocationStore.store :=
                {| LocationStore.locatable := true;
                   LocationStore.location :=
                     {| latitude := 1; longitude := 1 |} |};
              LocationStore.acquiring := 1 |});
    reflexivity.
Defined.

(** X10. The last response to be fulfilled wins: after a run, the trees
    are the payload of the last fulfilled response, whatever was fetched,
    fulfilled or rejected before it and whatever else happened after. *)
Theorem last_fulfilled_response_wins
    (before after : list TreeStore.event) (data : list Tree)
    (p p' : TreeStore.process) :
  TreeStore.run
    (before ++ TreeStore.Respond (TreeStore.Fulfilled data) :: after) p
  = Some p' ->
  (forall later,
      ~ In (TreeStore.Respond (TreeStore.Fulfilled later)) after) ->
  TreeStore.trees (TreeStore.store p') = data.
Proof.
  intros Hrun Hno. rewrite tree_run_app in Hrun.
  destruct (TreeStore.run before p) as [q|]; [|discriminate].
  simpl in Hrun.
  destruct (TreeStore.fetching q); [discriminate|].
  rewrite (trees_kept after _ _ Hrun Hno). reflexivity.
Qed.

Lemma last_fulfilled_response_wins_witness :
  let before :=
    [TreeStore.Fetch; TreeStore.Fetch; TreeStore.Fetch;
     TreeStore.Respond (TreeStore.Fulfilled [B11]); TreeStore.Finally] in
  let after := [TreeStore.Finally; TreeStore.Respond TreeStore.Rejected] in
  let p' :=
    {| TreeStore.store := loaded [A00];
       TreeStore.fetching := 0; TreeStore.finishing := 1 |} in
  TreeStore.run
    (before ++ TreeStore.Respond (TreeStore.Fulfilled [A00]) :: after)
    TreeStore.start = Some p' /\
  TreeStore.trees (TreeStore.store p') = [A00].
Proof.
  split; [reflexivity|].
  apply (last_fulfilled_response_wins
           [TreeStore.Fetch; TreeStore.Fetch; TreeStore.Fetch;
            TreeStore.Respond (TreeStore.Fulfilled [B11]); TreeStore.Finally]
           [TreeStore.Finally; TreeStore.Respond TreeStore.Rejected]
           [A00] TreeStore.start); [reflexivity|].
  intros later [H | [H | []]]; discriminate.
Defined.

(** X11. The last fix wins: after a run, the stored location is the one
    the last success callback reported, whatever failures or further
    calls of [locate_user] came after it. *)
Theorem last_fix_wins
    (before after : list LocationStore.event) (coords : Location)
    (p p' : LocationStore.process) :
  LocationStore.run
    (before ++ LocationStore.Settle (LocationStore.Success coords) :: after) p
  = Some p' ->
  (forall later,
      ~ In (LocationStore.Settle (LocationStore.Success later)) after) ->
  LocationStore.location (LocationStore.store p') = coords.
Proof.
  intros Hrun Hno. rewrite location_run_app in Hrun.
  destruct (LocationStore.run before p) as [q|]; [|discriminate].
  simpl in Hrun.
  destruct (LocationStore.acquiring q); [discriminate|].
  destruct (location_kept after _ _ Hrun Hno) as [-> _].
  destruct coords. reflexivity.
Qed.

Lemma last_fix_wins_witness :
  let fix1 := {| latitude := 1; longitude := 1 |} in
  let p' :=
    {| LocationStore.store :=
         {| LocationStore.locatable := false;
            LocationStore.location := fix1 |};
       LocationStore.acquiring := 0 |} in
  LocationStore.run
    ([LocationStore.Locate true; LocationStore.Locate true]
     ++ LocationStore.Settle (LocationStore.Success fix1)
     :: [LocationStore.Settle
           (LocationStore.Failure LocationStore.PERMISSION_DENIED)])
    LocationStore.start = Some p' /\
  LocationStore.location (LocationStore.store p') = fix1.
Proof.
  split; [reflexivity|].
  apply (last_fix_wins
           [LocationStore.Locate true; LocationStore.Locate true]
           [LocationStore.Settle
              (LocationStore.Failure LocationStore.PERMISSION_DENIED)]
           {| latitude := 1; longitude := 1 |} LocationStore.start);
    [reflexivity|].
  intros later [H | []]; discriminate.
Defined.

End StoreRunLaws.

(** ** The page and the event loop *)

Section PageLaws.

Import Fixtures.

(** A value of the getter tells that all three guards passed. *)
Lemma closest_tree_some (s : TreeStore.state) (ls : LocationStore.state)
    (t : Tree) :
  TreeStore.closest_tree s ls = Some t ->
  LocationStore.locatable ls = true /\ TreeStore.loading s = false /\
  In t (TreeStore.trees s).
Proof.
  unfold TreeStore.closest_tree.
  destruct (LocationStore.locatable ls); [|discriminate].
  destruct (TreeStore.loading s); [discriminate|]. simpl.
  destruct (List.length (TreeStore.trees s) =? 0); [discriminate|].
  intros H. repeat split. eapply nth_error_In. exact H.
Qed.

Lemma In_tree_events (e : TreeStore.event) (events : list App.event) :
  In e (App.tree_events events) <-> In (App.TreeEvent e) events.
Proof.
  induction events as [|[e'|e'] rest IH]; simpl; [tauto| |].
  - rewrite IH. split; intros [H | H]; auto; left; congruence.
  - rewrite IH. split; [auto|]. intros [H | H]; [discriminate|exact H].
Qed.

Lemma In_location_events (e : LocationStore.event) (events : list App.event) :
  In e (App.location_events events) <-> In (App.LocationEvent e) events.
Proof.
  induction events as [|[e'|e'] rest IH]; simpl; [tauto| |].
  - rewrite IH. split; [auto|]. intros [H | H]; [discriminate|exact H].
  - rewrite IH. split; intros [H | H]; auto; left; congruence.
Qed.

Lemma run_sides (events : list App.event) (w : App.world) :
  App.run events App.start = Some w ->
  TreeStore.run (App.tree_events events) TreeStore.start
  = Some (App.treeStore w) /\
  LocationStore.run (App.location_events events) LocationStore.start
  = Some (App.locationStore w).
Proof.
  rewrite run_factor. simpl.
  destruct (TreeStore.run (App.tree_events events) TreeStore.start);
    [|discriminate].
  destruct (LocationStore.run (App.location_events events)
                              LocationStore.start); [|discriminate].
  intros [= <-]. split; reflexivity.
Qed.

(** X12. Whatever the getter returns in a run of the application is a
    tree of a fulfilled response of that run, measured from a position
    that a success callback of that run reported. *)
Theorem closest_tree_provenance (events : list App.event) (w : App.world)
    (t : Tree) :
  App.run events App.start = Some w ->
  App.closest_tree w = Some t ->
  (exists data,
      In (App.TreeEvent (TreeStore.Respond (TreeStore.Fulfilled data))) events
      /\ In t data) /\
  In (App.LocationEvent
        (LocationStore.Settle
           (LocationStore.Success
              (LocationStore.location
                 (LocationStore.store (App.locationStore w)))))) events.
Proof.
  intros Hrun Hres.
  destruct (run_sides events w Hrun) as [Htree Hloc].
  apply closest_tree_some in Hres. simpl in Hres.
  destruct Hres as (Hlocatable & _ & Hin). split.
  - exists (TreeStore.trees (TreeStore.store (App.treeStore w))).
    split; [|exact Hin]. apply In_tree_events.
    destruct (trees_origin _ _ _ Htree) as [H | H]; [exact H|].
    simpl in H. rewrite H in Hin. contradiction.
  - apply In_location_events.
    destruct (locatable_origin _ _ _ Hloc Hlocatable) as [H | [H _]];
      [exact H|discriminate].
Qed.

Lemma closest_tree_provenance_witness :
  let events :=
    App.onMounted true
    ++ [App.LocationEvent
          (LocationStore.Settle
             (LocationStore.Success {| latitude := 0; longitude := 0 |}));
        App.TreeEvent (TreeStore.Respond (TreeStore.Fulfilled [B11; A00]));
        App.TreeEvent TreeStore.Finally] in
  (exists data,
      In (App.TreeEvent (TreeStore.Respond (TreeStore.Fulfilled data))) events
      /\ In A00 data) /\
  In (App.LocationEvent
        (LocationStore.Settle
           (LocationStore.Success {| latitude := 0; longitude := 0 |}))) events.
Proof.
  apply (closest_tree_provenance
           (App.onMounted true
            ++ [App.LocationEvent
                  (LocationStore.Settle
                     (LocationStore.Success
                        {| latitude := 0; longitude := 0 |}));
                App.TreeEvent
                  (TreeStore.Respond (TreeStore.Fulfilled [B11; A00]));
                App.TreeEvent TreeStore.Finally])
           {| App.treeStore :=
                {| TreeStore.store := loaded [B11; A00];
                   TreeStore.fetching := 0; TreeStore.finishing := 0 |};
              App.locationStore :=
                {| LocationStore.store := at_position 0 0;
                   LocationStore.acquiring := 0 |} |});
    reflexivity.
Defined.

Lemma closest_tree_none_iff (s : TreeStore.state) (ls : LocationStore.state) :
  TreeStore.loading s = false -> LocationStore.locatable ls = true ->
  (TreeStore.closest_tree s ls = None <-> TreeStore.trees s = []).
Proof.
  intros Hload Hloc. split.
  - intros Hnone. destruct (TreeStore.trees s) as [|t rest] eqn:E;
      [reflexivity|]. exfalso.
    destruct (closest_tree_found s ls) as (r & Hr & _); try assumption;
      congruence.
  - intros E. unfold TreeStore.closest_tree. rewrite E, Hload, Hloc.
    reflexivity.
Qed.

(** X13. After the mount hook, once the one request is fulfilled and the
    one acquisition succeeds, in whatever order their callbacks ran, the
    stores hold the payload and the fix with both flags right, and the
    getter has a value exactly when the payload is not empty. *)
Theorem mount_then_both_succeed (events : list App.event)
    (data : list Tree) (coords : Location) :
  App.tree_events events
  = [TreeStore.Fetch; TreeStore.Respond (TreeStore.Fulfilled data);
     TreeStore.Finally] ->
  App.location_events events
  = [LocationStore.Locate true;
     LocationStore.Settle (LocationStore.Success coords)] ->
  exists w,
    App.run events App.start = Some w /\
    App.stores w
    = ({| TreeStore.trees := data; TreeStore.loading := false |},
       {| LocationStore.locatable := true;
          LocationStore.location := coords |}) /\
    (App.closest_tree w = None <-> data = []).
Proof.
  intros Ht Hl. rewrite run_factor, Ht, Hl. destruct coords as [lat lon].
  simpl. eexists. split; [reflexivity|]. split; [reflexivity|].
  apply (closest_tree_none_iff
           {| TreeStore.trees := data; TreeStore.loading := false |}
           {| LocationStore.locatable := true;
              LocationStore.location :=
                {| latitude := lat; longitude := lon |} |});
    reflexivity.
Qed.

Lemma mount_then_both_succeed_witness :
  let position := {| latitude := tenth; longitude := tenth |} in
  let events :=
    [App.TreeEvent TreeStore.Fetch;
     App.LocationEvent (LocationStore.Locate true);
     App.TreeEvent (TreeStore.Respond (TreeStore.Fulfilled [A00; B11]));
     App.LocationEvent (LocationStore.Settle (LocationStore.Success position));
     App.TreeEvent TreeStore.Finally] in
  exists w,
    App.run events App.start = Some w /\
    App.stores w
    = ({| TreeStore.trees := [A00; B11]; TreeStore.loading := false |},
       {| LocationStore.locatable := true;
          LocationStore.location := position |}) /\
    (App.closest_tree w = None <-> [A00; B11] = []).
Proof.
  apply mount_then_both_succeed; reflexivity.
Defined.

(** X14. The line naming the closest tree is shown only together with the
    list of trees, never beside the loading notice or the apology, and the
    tree it names is one of the listed trees. *)
Theorem closest_line_only_with_list (treeStore : TreeStore.state)
    (locationStore : LocationStore.state) (shown : string) :
  TreeListingView.closest_name
    (TreeListingView.render treeStore locationStore) = Some shown ->
  TreeListingView.listing (TreeListingView.render treeStore locationStore)
  = TreeListingView.TreeList
      (map TreeListingView.item (TreeStore.trees treeStore)) /\
  exists t,
    In t (TreeStore.trees treeStore) /\ name t = shown /\
    In (TreeListingView.item t)
       (map TreeListingView.item (TreeStore.trees treeStore)).
Proof.
  unfold TreeListingView.render. simpl.
  destruct (TreeStore.closest_tree treeStore locationStore) as [t|] eqn:E;
    [|discriminate].
  intros [= <-]. apply closest_tree_some in E.
  destruct E as (_ & Hload & Hin). rewrite Hload. simpl. split.
  - destruct (TreeStore.trees treeStore); [contradiction|reflexivity].
  - exists t. split; [exact Hin|]. split; [reflexivity|].
    apply in_map. exact Hin.
Qed.

Lemma closest_line_only_with_list_witness :
  let treeStore := loaded [B11; A00] in
  let locationStore := at_position 0 0 in
  TreeListingView.listing (TreeListingView.render treeStore locationStore)
  = TreeListingView.TreeList
      (map TreeListingView.item (TreeStore.trees treeStore)) /\
  exists t,
    In t (TreeStore.trees treeStore) /\ name t = "A"%string /\
    In (TreeListingView.item t)
       (map TreeListingView.item (TreeStore.trees treeStore)).
Proof.
  apply closest_line_only_with_list. reflexivity.
Defined.

(** While no [.finally] callback has run, a raised flag stays raised. *)
Lemma loading_kept (events : list TreeStore.event) :
  forall p p',
    TreeStore.run events p = Some p' ->
    ~ In TreeStore.Finally events ->
    TreeStore.loading (TreeStore.store p) = true ->
    TreeStore.loading (TreeStore.store p') = true.
Proof.
  induction events as [|e rest IH]; intros p p'; simpl.
  - intros [= <-] _ H. exact H.
  - destruct (TreeStore.step e p) as [q|] eqn:E; [|discriminate].
    intros Hrun Hno Hload.
    apply (IH q p' Hrun); [tauto|].
    destruct e as [|[data|]|]; simpl in E.
    + injection E as <-. reflexivity.
    + destruct (TreeStore.fetching p); [discriminate|].
      injection E as <-. exact Hload.
    + destruct (TreeStore.fetching p); [discriminate|].
      injection E as <-. exact Hload.
    + exfalso. apply Hno. left. reflexivity.
Qed.

(** X15. From the call of [fetch_trees] until the first [.finally]
    callback runs, the page shows the loading notice and no closest tree,
    also when the response has already replaced the trees and the user
    has been located. *)
Theorem loading_notice_until_finally (events : list App.event)
    (w : App.world) :
  App.run (App.TreeEvent TreeStore.Fetch :: events) App.start = Some w ->
  ~ In (App.TreeEvent TreeStore.Finally) events ->
  TreeListingView.show w
  = {| TreeListingView.listing := TreeListingView.LoadingNotice;
       TreeListingView.closest_name := None |}.
Proof.
  intros Hrun Hno.
  destruct (run_sides _ w Hrun) as [Htree _]. simpl in Htree.
  assert (Hload : TreeStore.loading (TreeStore.store (App.treeStore w)) = true).
  { apply (loading_kept _ _ _ Htree); [|reflexivity].
    intros H. apply Hno, In_tree_events, H. }
  unfold TreeListingView.show, TreeListingView.render. simpl.
  rewrite Hload. simpl.
  assert (G : TreeStore.closest_tree
                (TreeStore.store (App.treeStore w))
                (LocationStore.store (App.locationStore w)) = None).
  { unfold TreeStore.closest_tree. rewrite Hload, orb_true_r. reflexivity. }
  rewrite G. reflexivity.
Qed.

Lemma loading_notice_until_finally_witness :
  let events :=
    [App.LocationEvent (LocationStore.Locate true);
     App.LocationEvent
       (LocationStore.Settle
          (LocationStore.Success {| latitude := 0; longitude := 0 |}));
     App.TreeEvent (TreeStore.Respond (TreeStore.Fulfilled [A00]))] in
  let w :=
    {| App.treeStore :=
         {| TreeStore.store :=
              {| TreeStore.trees := [A00]; TreeStore.loading := true |};
            TreeStore.fetching := 0; TreeStore.finishing := 1 |};
       App.locationStore :=
         {| LocationStore.store := at_position 0 0;
            LocationStore.acquiring := 0 |} |} in
  App.run (App.TreeEvent TreeStore.Fetch :: events) App.start = Some w /\
  TreeListingView.show w
  = {| TreeListingView.listing := TreeListingView.LoadingNotice;
       TreeListingView.closest_name := None |}.
Proof.
  split; [reflexivity|].
  apply (loading_notice_until_finally
           [App.LocationEvent (LocationStore.Locate true);
            App.LocationEvent
              (LocationStore.Settle
                 (LocationStore.Success {| latitude := 0; longitude := 0 |}));
            App.TreeEvent (TreeStore.Respond (TreeStore.Fulfilled [A00]))]);
    [reflexivity|].
  intros [H | [H | [H | []]]]; discriminate.
Defined.

End PageLaws.

Section BlankingLaws.

Import Fixtures.

(** X16. Three turns of the event loop blank the getter, whatever trees
    and fix the stores hold: a new call of [fetch_trees] (until its
    [.finally] runs), a call of [locate_user] without geolocation, and an
    error callback of an acquisition. *)
Theorem closest_tree_blanked (w w' : App.world) :
  (App.step (App.TreeEvent TreeStore.Fetch) w = Some w' ->
   App.closest_tree w' = None) /\
  (App.step (App.LocationEvent (LocationStore.Locate false)) w = Some w' ->
   App.closest_tree w' = None) /\
  (forall error,
      App.step (App.LocationEvent
                  (LocationStore.Settle (LocationStore.Failure error))) w
      = Some w' ->
      App.closest_tree w' = None).
Proof.
  unfold App.closest_tree, TreeStore.closest_tree. repeat split.
  - simpl. intros [= <-]. simpl. rewrite orb_true_r. reflexivity.
  - simpl. intros [= <-]. reflexivity.
  - intros error. simpl.
    destruct (LocationStore.acquiring (App.locationStore w)); [discriminate|].
    intros [= <-]. reflexivity.
Qed.

Lemma closest_tree_blanked_witness :
  let w :=
    {| App.treeStore :=
         {| TreeStore.store := loaded [A00; B11];
            TreeStore.fetching := 0; TreeStore.finishing := 0 |};
       App.locationStore :=
         {| LocationStore.store := at_position 0 0;
            LocationStore.acquiring := 1 |} |} in
  let w' :=
    {| App.treeStore := App.treeStore w;
       App.locationStore :=
         {| LocationStore.store :=
              {| LocationStore.locatable := false;
                 LocationStore.location :=
                   {| latitude := 0; longitude := 0 |} |};
            LocationStore.acquiring := 0 |} |} in
  App.closest_tree w = Some A00 /\ App.closest_tree w' = None.
Proof.
  split; [reflexivity|].
  apply (proj2 (proj2 (closest_tree_blanked
           {| App.treeStore :=
                {| TreeStore.store := loaded [A00; B11];
                   TreeStore.fetching := 0; TreeStore.finishing := 0 |};
              App.locationStore :=
                {| LocationStore.store := at_position 0 0;
                   LocationStore.acquiring := 1 |} |} _))
           LocationStore.TIMEOUT).
  reflexivity.
Defined.

End BlankingLaws.

(** ** The cached getter *)

Section CachedGetter.

Import Reactivity.

Lemma map_tracked_value {A B : Type} (callback : A -> tracked B)
    (l : list A) (h : heap) :
  fst (map_tracked callback l h) = map (fun x => fst (callback x h)) l.
Proof.
  induction l as [|x rest IH]; simpl; [reflexivity|].
  unfold bind. destruct (callback x h) as [y cells].
  destruct (map_tracked callback rest h) as [ys cells']. simpl in *.
  rewrite IH. reflexivity.
Qed.

(** Over a non-empty array the map callback reads both coordinates. *)
Lemma map_tracked_distance_cells (t : Tree) (rest : list Tree) (h : heap) :
  exists cells,
    snd (map_tracked Reactivity.distance (t :: rest) h)
    = Longitude :: Latitude :: cells.
Proof.
  simpl. unfold bind at 1. simpl.
  destruct (bind (map_tracked Reactivity.distance rest) _ h) as [ys cells].
  exists cells. reflexivity.
Qed.

(** The getter under tracking, guard by guard. *)
Lemma closest_tree_tracked_cases (h : heap) :
  Reactivity.closest_tree h =
  if negb (LocationStore.locatable (locationStore h))
  then (None, [Locatable])
  else if TreeStore.loading (treeStore h)
  then (None, [Locatable; Loading])
  else if List.length (TreeStore.trees (treeStore h)) =? 0
  then (None, [Locatable; Loading; Trees])
  else
    (nth_error (TreeStore.trees (treeStore h))
       (reduce
          (TreeStore.smaller
             (fst (map_tracked Reactivity.distance
                     (TreeStore.trees (treeStore h)) h)))
          (fst (map_tracked Reactivity.distance
                  (TreeStore.trees (treeStore h)) h)) 0),
     Locatable :: Loading :: Trees :: Trees
     :: snd (map_tracked Reactivity.distance
               (TreeStore.trees (treeStore h)) h) ++ [Trees]).
Proof.
  unfold Reactivity.closest_tree, bind, read_locatable, read_loading,
    read_trees, ret.
  destruct (LocationStore.locatable (locationStore h)); simpl;
    [|reflexivity].
  destruct (TreeStore.loading (treeStore h)); simpl; [reflexivity|].
  destruct (List.length (TreeStore.trees (treeStore h)) =? 0); simpl;
    [reflexivity|].
  destruct (map_tracked Reactivity.distance (TreeStore.trees (treeStore h)) h)
    as [distances cells].
  reflexivity.
Qed.

(** The getter under tracking computes what the getter computes. *)
Lemma closest_tree_tracked_value (h : heap) :
  fst (Reactivity.closest_tree h)
  = TreeStore.closest_tree (treeStore h) (locationStore h).
Proof.
  rewrite closest_tree_tracked_cases. unfold TreeStore.closest_tree.
  destruct (LocationStore.locatable (locationStore h)); simpl;
    [|reflexivity].
  destruct (TreeStore.loading (treeStore h)); simpl; [reflexivity|].
  destruct (List.length (TreeStore.trees (treeStore h)) =? 0); simpl;
    [reflexivity|].
  rewrite map_tracked_value. reflexivity.
Qed.

(** Assigning to a cell the getter did not read leaves its value and its
    reads as they are. *)
Lemma closest_tree_frame (h h' : heap) (written : cell) :
  existsb (cell_eqb written) (snd (Reactivity.closest_tree h)) = false ->
  (written <> Locatable ->
   LocationStore.locatable (locationStore h')
   = LocationStore.locatable (locationStore h)) ->
  (written <> Loading ->
   TreeStore.loading (treeStore h') = TreeStore.loading (treeStore h)) ->
  (written <> Trees ->
   TreeStore.trees (treeStore h') = TreeStore.trees (treeStore h)) ->
  Reactivity.closest_tree h' = Reactivity.closest_tree h.
Proof.
  rewrite !closest_tree_tracked_cases.
  intros Hout Hlocatable Hloading Htrees.
  destruct (LocationStore.locatable (locationStore h)) eqn:E1; simpl in *.
  2: { rewrite Hlocatable by (intros ->; discriminate). reflexivity. }
  destruct (TreeStore.loading (treeStore h)) eqn:E2; simpl in *.
  { destruct written; simpl in Hout; try discriminate;
      rewrite Hlocatable, Hloading by discriminate; reflexivity. }
  destruct (TreeStore.trees (treeStore h)) as [|t rest] eqn:E3; simpl in *.
  { destruct written; simpl in Hout; try discriminate;
      rewrite Hlocatable, Hloading, Htrees by discriminate; reflexivity. }
  exfalso.
  destruct (map_tracked_distance_cells t rest h) as [cells Hcells].
  simpl in Hcells. rewrite Hcells in Hout.
  destruct written; simpl in Hout; discriminate.
Qed.

(** *** Assignments keep the cache coherent *)

Lemma trigger_coherent (written : cell) (r : state) (h' : heap) :
  coherent r ->
  (written <> Locatable ->
   LocationStore.locatable (locationStore h')
   = LocationStore.locatable (locationStore (refs r))) ->
  (written <> Loading ->
   TreeStore.loading (treeStore h')
   = TreeStore.loading (treeStore (refs r))) ->
  (written <> Trees ->
   TreeStore.trees (treeStore h') = TreeStore.trees (treeStore (refs r))) ->
  coherent {| refs := h'; closest := trigger written (closest r) |}.
Proof.
  unfold coherent, trigger. intros Hcoh H1 H2 H3. simpl.
  destruct (existsb (cell_eqb written) (deps (closest r))) eqn:E; simpl.
  - discriminate.
  - intros Hclean. specialize (Hcoh Hclean). rewrite <- Hcoh.
    apply (closest_tree_frame (refs r) h' written); try assumption.
    rewrite Hcoh. exact E.
Qed.

Lemma set_loading_coherent (b : bool) (r : state) :
  coherent r -> coherent (set_loading b r).
Proof.
  intros H. unfold set_loading.
  destruct (Bool.eqb b _); [exact H|].
  apply trigger_coherent; try exact H; intros; try reflexivity; congruence.
Qed.

Lemma set_trees_coherent (data : list Tree) (r : state) :
  coherent r -> coherent (set_trees data r).
Proof.
  intros H. unfold set_trees.
  apply trigger_coherent; try exact H; intros; try reflexivity; congruence.
Qed.

Lemma set_locatable_coherent (b : bool) (r : state) :
  coherent r -> coherent (set_locatable b r).
Proof.
  intros H. unfold set_locatable.
  destruct (Bool.eqb b _); [exact H|].
  apply trigger_coherent; try exact H; intros; try reflexivity; congruence.
Qed.

Lemma set_latitude_coherent (x : float) (r : state) :
  coherent r -> coherent (set_latitude x r).
Proof.
  intros H. unfold set_latitude.
  destruct (PrimFloat.Leibniz.eqb x _); [exact H|].
  apply trigger_coherent; try exact H; intros; reflexivity.
Qed.

Lemma set_longitude_coherent (x : float) (r : state) :
  coherent r -> coherent (set_longitude x r).
Proof.
  intros H. unfold set_longitude.
  destruct (PrimFloat.Leibniz.eqb x _); [exact H|].
  apply trigger_coherent; try exact H; intros; reflexivity.
Qed.

Lemma get_coherent (r : state) :
  coherent r ->
  coherent {| refs := refs r; closest := snd (get (closest r) (refs r)) |}.
Proof.
  unfold coherent, get. simpl. intros Hcoh.
  destruct (dirty (closest r)) eqn:E.
  - destruct (Reactivity.closest_tree (refs r)) as [v cells]. reflexivity.
  - simpl. intros _. apply Hcoh. reflexivity.
Qed.

Lemma step_coherent (e : event) (w w' : world) :
  step e w = Some w' -> coherent (reactive w) -> coherent (reactive w').
Proof.
  intros Hstep Hcoh.
  destruct e as [[[|o|]|[geolocation|o]]|]; simpl in Hstep.
  - injection Hstep as <-. apply set_loading_coherent, Hcoh.
  - destruct (fetching w); [discriminate|]. injection Hstep as <-. simpl.
    destruct o as [data|]; [apply set_trees_coherent|]; exact Hcoh.
  - destruct (finishing w); [discriminate|]. injection Hstep as <-.
    apply set_loading_coherent, Hcoh.
  - injection Hstep as <-. simpl. unfold locate_user.
    destruct (negb geolocation); [apply set_locatable_coherent|]; exact Hcoh.
  - destruct (acquiring w); [discriminate|]. injection Hstep as <-. simpl.
    destruct o as [coords|error]; simpl.
    + apply set_locatable_coherent, set_longitude_coherent,
        set_latitude_coherent, Hcoh.
    + apply set_locatable_coherent, Hcoh.
  - injection Hstep as <-. apply get_coherent, Hcoh.
Qed.

Lemma run_coherent (events : list event) :
  forall w w',
    run events w = Some w' -> coherent (reactive w) -> coherent (reactive w').
Proof.
  induction events as [|e rest IH]; intros w w'; simpl.
  - intros [= <-]. auto.
  - destruct (step e w) as [v|] eqn:E; [|discriminate].
    intros Hrun Hcoh. apply (IH v w' Hrun).
    exact (step_coherent e w v E Hcoh).
Qed.

(** A read through a coherent cache is the getter on the refs of now. *)
Lemma read_coherent (w : world) :
  coherent (reactive w) ->
  read w = TreeStore.closest_tree (treeStore (refs (reactive w)))
                                  (locationStore (refs (reactive w))).
Proof.
  intros Hcoh. rewrite <- closest_tree_tracked_value.
  unfold read, get.
  destruct (dirty (closest (reactive w))) eqn:E.
  - destruct (Reactivity.closest_tree (refs (reactive w))). reflexivity.
  - rewrite (Hcoh E). reflexivity.
Qed.

(** *** The refs follow the stores of the event loop *)

Lemma refs_set_loading (b : bool) (r : state) :
  refs (set_loading b r)
  = {| treeStore :=
         {| TreeStore.trees := TreeStore.trees (treeStore (refs r));
            TreeStore.loading := b |};
       locationStore := locationStore (refs r) |}.
Proof.
  unfold set_loading.
  destruct (Bool.eqb b _) eqn:E; [|reflexivity].
  apply eqb_prop in E. rewrite E.
  destruct r as [[[trees loading] l] c]. reflexivity.
Qed.

Lemma refs_set_locatable (b : bool) (r : state) :
  refs (set_locatable b r)
  = {| treeStore := treeStore (refs r);
       locationStore :=
         {| LocationStore.locatable := b;
            LocationStore.location :=
              LocationStore.location (locationStore (refs r)) |} |}.
Proof.
  unfold set_locatable.
  destruct (Bool.eqb b _) eqn:E; [|reflexivity].
  apply eqb_prop in E. rewrite E.
  destruct r as [[t [locatable l]] c]. reflexivity.
Qed.

Lemma refs_set_latitude (x : float) (r : state) :
  refs (set_latitude x r)
  = {| treeStore := treeStore (refs r);
       locationStore :=
         {| LocationStore.locatable :=
              LocationStore.locatable (locationStore (refs r));
            LocationStore.location :=
              {| latitude := x;
                 longitude :=
                   longitude
                     (LocationStore.location (locationStore (refs r))) |} |} |}.
Proof.
  unfold set_latitude.
  destruct (PrimFloat.Leibniz.eqb x _) eqn:E; [|reflexivity].
  apply FloatAxioms.Leibniz.eqb_spec in E. rewrite E.
  destruct r as [[t [locatable [lat lon]]] c]. reflexivity.
Qed.

Lemma refs_set_longitude (x : float) (r : state) :
  refs (set_longitude x r)
  = {| treeStore := treeStore (refs r);
       locationStore :=
         {| LocationStore.locatable :=
              LocationStore.locatable (locationStore (refs r));
            LocationStore.location :=
              {| latitude :=
                   latitude
                     (LocationStore.location (locationStore (refs r)));
                 longitude := x |} |} |}.
Proof.
  unfold set_longitude.
  destruct (PrimFloat.Leibniz.eqb x _) eqn:E; [|reflexivity].
  apply FloatAxioms.Leibniz.eqb_spec in E. rewrite E.
  destruct r as [[t [locatable [lat lon]]] c]. reflexivity.
Qed.

(** Without the cache, a turn of the reactive event loop is the turn of
    the stores. *)
Lemma step_project (e : App.event) (w w' : world) :
  step (Turn e) w = Some w' ->
  App.step e (project w) = Some (project w').
Proof.
  intros Hstep. unfold project.
  destruct e as [[|o|]|[geolocation|o]]; simpl in *.
  - injection Hstep as <-. simpl. unfold Reactivity.fetch_trees.
    rewrite refs_set_loading. reflexivity.
  - destruct (fetching w); [discriminate|]. injection Hstep as <-. simpl.
    destruct o as [data|]; simpl.
    + destruct (reactive w) as [[[trees loading] l] c]; reflexivity.
    + destruct (reactive w) as [[[trees loading] l] c]; reflexivity.
  - destruct (finishing w); [discriminate|]. injection Hstep as <-. simpl.
    unfold Reactivity.on_finally. rewrite refs_set_loading. reflexivity.
  - injection Hstep as <-. simpl.
    unfold Reactivity.locate_user, LocationStore.locate_user.
    destruct geolocation; simpl; [reflexivity|].
    rewrite refs_set_locatable. reflexivity.
  - destruct (acquiring w); [discriminate|]. injection Hstep as <-. simpl.
    destruct o as [coords|error]; simpl.
    + unfold Reactivity.on_success.
      rewrite refs_set_locatable, refs_set_longitude, refs_set_latitude.
      reflexivity.
    + unfold Reactivity.on_error. rewrite refs_set_locatable. reflexivity.
Qed.

Lemma run_project (events : list event) :
  forall w w',
    run events w = Some w' ->
    App.run (turns events) (project w) = Some (project w').
Proof.
  induction events as [|e rest IH]; intros w w'; simpl.
  - intros [= <-]. reflexivity.
  - destruct (step e w) as [v|] eqn:E; [|discriminate].
    intros Hrun. destruct e as [e|].
    + simpl. rewrite (step_project e w v E). apply IH, Hrun.
    + simpl in E. injection E as <-. apply IH in Hrun. exact Hrun.
Qed.

Lemma start_coherent : coherent (reactive Reactivity.start).
Proof. unfold coherent. simpl. discriminate. Qed.

End CachedGetter.

Section CachedGetterClaims.

Import Fixtures.

(** C8. The getter is cached by [computed], and still every read of it,
    at any point of any run of the event loop, returns what the getter
    computes from the pair of store states of that moment, whatever was
    read and cached earlier.  So two runs that reach the same pair of
    store states read the same result, and so do two runs that
    interleave the same turns of the tree store and of the location
    store in different orders, with reads anywhere in between. *)
Theorem closest_tree_never_stale :
  (forall events w,
      Reactivity.run events Reactivity.start = Some w ->
      Reactivity.read w = App.closest_tree (Reactivity.project w)) /\
  (forall events1 events2 w1 w2,
      Reactivity.run events1 Reactivity.start = Some w1 ->
      Reactivity.run events2 Reactivity.start = Some w2 ->
      App.stores (Reactivity.project w1) = App.stores (Reactivity.project w2) ->
      Reactivity.read w1 = Reactivity.read w2) /\
  (forall events1 events2 w1 w2,
      Reactivity.run events1 Reactivity.start = Some w1 ->
      Reactivity.run events2 Reactivity.start = Some w2 ->
      App.tree_events (Reactivity.turns events1)
      = App.tree_events (Reactivity.turns events2) ->
      App.location_events (Reactivity.turns events1)
      = App.location_events (Reactivity.turns events2) ->
      Reactivity.read w1 = Reactivity.read w2).
Proof.
  assert (Fresh : forall events w,
             Reactivity.run events Reactivity.start = Some w ->
             Reactivity.read w = App.closest_tree (Reactivity.project w)).
  { intros events w Hrun. apply read_coherent.
    exact (run_coherent events _ _ Hrun start_coherent). }
  split; [exact Fresh|]. split.
  - intros events1 events2 w1 w2 H1 H2 Hsame.
    rewrite (Fresh events1 w1 H1), (Fresh events2 w2 H2).
    unfold App.closest_tree. rewrite Hsame. reflexivity.
  - intros events1 events2 w1 w2 H1 H2 Ht Hl.
    rewrite (Fresh events1 w1 H1), (Fresh events2 w2 H2).
    apply run_project in H1. apply run_project in H2.
    assert (E : App.run (Reactivity.turns events1)
                        (Reactivity.project Reactivity.start)
                = App.run (Reactivity.turns events2)
                          (Reactivity.project Reactivity.start)).
    { rewrite !run_factor, Ht, Hl. reflexivity. }
    rewrite H1, H2 in E.
    assert (E' : Reactivity.project w1 = Reactivity.project w2)
      by congruence.
    rewrite E'. reflexivity.
Qed.

Lemma closest_tree_never_stale_witness :
  let fetched :=
    Reactivity.Turn
      (App.TreeEvent (TreeStore.Respond (TreeStore.Fulfilled [A00; B11]))) in
  let finished := Reactivity.Turn (App.TreeEvent TreeStore.Finally) in
  let located :=
    Reactivity.Turn
      (App.LocationEvent
         (LocationStore.Settle
            (LocationStore.Success
               {| latitude := tenth; longitude := tenth |}))) in
  let mounted := map Reactivity.Turn (App.onMounted true) in
  let fetch_first :=
    mounted ++ [Reactivity.Render; fetched; finished; Reactivity.Render;
                located; Reactivity.Render] in
  let position_first :=
    mounted ++ [located; Reactivity.Render; fetched; finished] in
  exists w1 w2,
    Reactivity.run fetch_first Reactivity.start = Some w1 /\
    Reactivity.run position_first Reactivity.start = Some w2 /\
    Reactivity.dirty (Reactivity.closest (Reactivity.reactive w1)) = false /\
    Reactivity.dirty (Reactivity.closest (Reactivity.reactive w2)) = true /\
    Reactivity.value (Reactivity.closest (Reactivity.reactive w2)) = None /\
    Reactivity.read w1 = Some A00 /\
    Reactivity.read w1 = Reactivity.read w2.
Proof.
  eexists. eexists.
  split; [reflexivity|]. split; [reflexivity|]. split; [reflexivity|].
  split; [reflexivity|]. split; [reflexivity|]. split; [reflexivity|].
  apply (proj1 (proj2 closest_tree_never_stale)
           (map Reactivity.Turn (App.onMounted true)
            ++ [Reactivity.Render;
                Reactivity.Turn
                  (App.TreeEvent
                     (TreeStore.Respond (TreeStore.Fulfilled [A00; B11])));
                Reactivity.Turn (App.TreeEvent TreeStore.Finally);
                Reactivity.Render;
                Reactivity.Turn
                  (App.LocationEvent
                     (LocationStore.Settle
                        (LocationStore.Success
                           {| latitude := tenth; longitude := tenth |})));
                Reactivity.Render])
           (map Reactivity.Turn (App.onMounted true)
            ++ [Reactivity.Turn
                  (App.LocationEvent
                     (LocationStore.Settle
                        (LocationStore.Success
                           {| latitude := tenth; longitude := tenth |})));
                Reactivity.Render;
                Reactivity.Turn
                  (App.TreeEvent
                     (TreeStore.Respond (TreeStore.Fulfilled [A00; B11])));
                Reactivity.Turn (App.TreeEvent TreeStore.Finally)]));
    reflexivity.
Defined.

End CachedGetterClaims.
